(** * x402-gated: the payment agent, the backend client, the tool registry
      and the pricing surface of the Circular Protocol gateway

    A shallow embedding of [src/agent.ts], [src/circular/client.ts],
    [src/mcp-server.ts] and [src/index.ts].

    The agent is event driven.  Each entry point the host calls
    ([onStart], [onMessage], the [onPaymentRequired] callback, a [setTimeout]
    callback, the continuation after an [await]) is a function on the agent's
    state; everything the agent sends, broadcasts or logs is appended to a
    trace kept in that state. *)

From Stdlib Require Import Ascii String NArith QArith.
From stdpp Require Import base option list gmap strings.

Local Open Scope string_scope.
Set Warnings "-register-all".

(** ** JavaScript values the code handles *)

Module Js.

(** What [JSON.parse] and [response.json()] can return.  A number is carried
    by the text that JavaScript's number-to-string conversion gives it, which
    is all the code ever does with one. *)
Inductive JsValue : Type :=
| JNull
| JBool (b : bool)
| JNum (repr : string)
| JStr (s : string)
| JArr (items : list JsValue)
| JObj (fields : list (string * JsValue)).

(** Own property of a parsed object. *)
Fixpoint own (name : string) (fields : list (string * JsValue)) : option JsValue :=
  match fields with
  | [] => None
  | (k, v) :: rest => if String.eqb k name then Some v else own name rest
  end.

(** [v.name] for the member names the code reads ([type], [confirmationId],
    [tool], [args], [exists], [balance], [transactions]); none of them is
    defined on a prototype, so every value but an object with that own
    property gives [undefined].  Reading a member of [null] throws.
    Outer [None]: a TypeError; inner [None]: [undefined]. *)
Definition member (v : JsValue) (name : string) : option (option JsValue) :=
  match v with
  | JNull => None
  | JObj fields => Some (own name fields)
  | _ => Some None
  end.

(** JavaScript's ToString on a parsed value; [None] is a TypeError.  An
    array joins its items with commas, [null] items giving the empty text.
    An object has no callable [toString] of its own (parsed values hold no
    functions): without an own [toString] it inherits the one that answers
    [[object Object]], with one the conversion fails. *)
Fixpoint to_string (v : JsValue) : option string :=
  match v with
  | JNull => Some "null"
  | JBool true => Some "true"
  | JBool false => Some "false"
  | JNum repr => Some repr
  | JStr s => Some s
  | JArr items =>
      (fix join (l : list JsValue) : option string :=
         match l with
         | [] => Some EmptyString
         | x :: rest =>
             match (match x with JNull => Some EmptyString | _ => to_string x end) with
             | None => None
             | Some sx =>
                 match rest with
                 | [] => Some sx
                 | _ => match join rest with
                        | Some sr => Some (sx +:+ "," +:+ sr)
                        | None => None
                        end
                 end
             end
         end) items
  | JObj fields =>
      match own "toString" fields with
      | Some _ => None
      | None => Some "[object Object]"
      end
  end.

(** The property key that [obj[e]] uses when [e] evaluated to [v]
    ([None]: [undefined]). *)
Definition to_property_key (v : option JsValue) : option string :=
  match v with
  | None => Some "undefined"
  | Some x => to_string x
  end.

(** ToString as a template literal applies it to an expression. *)
Definition template_text (v : option JsValue) : option string := to_property_key v.

(** Truthiness, as [||] and [if] test it. *)
Definition truthy (v : JsValue) : bool :=
  match v with
  | JNull => false
  | JBool b => b
  | JNum repr => negb (String.eqb repr "0")
  | JStr s => negb (String.eqb s EmptyString)
  | JArr _ | JObj _ => true
  end.

(** What a call of an inherited method does when it is given one boolean. *)
Inductive ProtoCall : Type := CallReturns | CallThrows.

(** A property found on [Object.prototype]. *)
Inductive Inherited : Type :=
| InhFunction (c : ProtoCall)
| InhObject.

(** A plain object [{}] inherits the properties of [Object.prototype].
    [__proto__] is the prototype object itself, not a function.
    [__defineGetter__] and [__defineSetter__] throw unless their second
    argument is a function.  The other methods return, and change nothing,
    when called on the object with a boolean. *)
Definition Object_prototype (key : string) : option Inherited :=
  if String.eqb key "__proto__" then Some InhObject
  else if String.eqb key "__defineGetter__" then Some (InhFunction CallThrows)
  else if String.eqb key "__defineSetter__" then Some (InhFunction CallThrows)
  else if String.eqb key "constructor" then Some (InhFunction CallReturns)
  else if String.eqb key "hasOwnProperty" then Some (InhFunction CallReturns)
  else if String.eqb key "isPrototypeOf" then Some (InhFunction CallReturns)
  else if String.eqb key "propertyIsEnumerable" then Some (InhFunction CallReturns)
  else if String.eqb key "toLocaleString" then Some (InhFunction CallReturns)
  else if String.eqb key "toString" then Some (InhFunction CallReturns)
  else if String.eqb key "valueOf" then Some (InhFunction CallReturns)
  else if String.eqb key "__lookupGetter__" then Some (InhFunction CallReturns)
  else if String.eqb key "__lookupSetter__" then Some (InhFunction CallReturns)
  else None.

(** A value that was thrown or that rejected a promise:
    [error instanceof Error ? error.message : "Unknown error"]. *)
Inductive Thrown : Type :=
| ThrownError (message : string)
| ThrownOther.

Definition message_or_unknown (e : Thrown) : string :=
  match e with
  | ThrownError message => message
  | ThrownOther => "Unknown error"
  end.

(** How an awaited promise settles. *)
Inductive Settled (A : Type) : Type :=
| Fulfilled (value : A)
| Rejected (reason : Thrown).
Arguments Fulfilled {A} value.
Arguments Rejected {A} reason.

End Js.

Export Js.

(** ** Shared data of the payment protocol *)

(** Modelled from the spec: [PaymentRequirements] is a type of the [x402]
    package, which is not part of the sources; the spec's data model gives it
    an amount, a network identifier, a recipient address and a facilitator
    endpoint.  The amount is kept as the price declared at registration. *)
Record PaymentRequirements : Type := mkRequirements {
  req_amount : Q;
  req_network : string;
  req_recipient : string;
  req_facilitator : string;
}.

(** One item of a tool result's [content]; [item_text] is its [text]. *)
Record ContentItem : Type := mkContent {
  item_type : string;
  item_text : option string;
}.

(** [CallToolResult] of the MCP SDK, as far as the code reads and writes it. *)
Record CallToolResult : Type := mkResult {
  content : list ContentItem;
  isError : bool;
}.

(** The environment bindings of [worker-configuration.d.ts]. *)
Record Env : Type := mkEnv {
  CIRCULAR_WALLET_ADDRESS : string;
  CIRCULAR_RPC_URL : string;
  FACILITATOR_URL : string;
  X402_NETWORK : string;
  CLIENT_WALLET_PK : option string;
}.

(** ** The payment agent ([src/agent.ts]) *)

Module CircularPayAgent.

Definition Connection : Type := nat.

(** [WSMessage]: a text frame, or a binary one ([ArrayBuffer] or a view). *)
Inductive WSMessage : Type :=
| WSString (text : string)
| WSBinary.

(** The objects the agent passes to [JSON.stringify] before sending. *)
Inductive Outbound : Type :=
| MsgError (error : string)
| MsgTool (type_ : string) (tool : option JsValue) (result : string) (timestamp : N)
| MsgToolsList (tools : JsValue)
| MsgPaymentRequired (confirmationId : string)
    (requirements : list PaymentRequirements) (timestamp : N).

(** What the agent does to the outside, in order. *)
Inductive Effect : Type :=
| ConnSend (conn : Connection) (m : Outbound)
| Broadcast (m : Outbound)
| ConsoleLog (line : string)
| ConsoleError (line : string)
| McpConnect (url : string)
| ClientCallTool (call : nat) (name : option JsValue) (arguments : JsValue)
| ClientListTools (call : nat).

(** An armed [setTimeout] callback of [onPaymentRequired]: the closure holds
    the [confirmationId] and the [resolve] function of its own promise. *)
Record Timer : Type := mkTimer {
  timer_due : N;
  timer_id : string;
  timer_resolve : nat;
}.

(** An [onMessage] call suspended at its [await]. *)
Inductive Awaited : Type :=
| AwaitCallTool (conn : Connection) (tool : option JsValue)
| AwaitListTools (conn : Connection).

(** The agent and the part of the JavaScript run time it relies on.
    [promises] holds the promises made by [onPaymentRequired], [None] while
    pending; the [resolve] function of promise [p] is named by [p].
    [confirmations] is the own properties of [this.confirmations].
    [clock] is [Date.now()], in milliseconds. *)
Record Agent : Type := mkAgent {
  confirmations : gmap string nat;
  promises : list (option bool);
  timers : list Timer;
  clock : N;
  x402Client : bool;
  awaiting : list (option Awaited);
  effects : list Effect;
}.

Definition initial : Agent := mkAgent ∅ [] [] 0 false [] [].

Definition emit (e : Effect) (a : Agent) : Agent :=
  mkAgent (confirmations a) (promises a) (timers a) (clock a) (x402Client a)
    (awaiting a) (effects a ++ [e]).

Definition send (conn : Connection) (m : Outbound) : Agent → Agent :=
  emit (ConnSend conn m).

(** Calling the [resolve] function of promise [p]: only the first call on a
    pending promise settles it. *)
Definition resolve (p : nat) (value : bool) (a : Agent) : Agent :=
  match promises a !! p with
  | Some None =>
      mkAgent (confirmations a) (<[p := Some value]> (promises a)) (timers a)
        (clock a) (x402Client a) (awaiting a) (effects a)
  | _ => a
  end.

(** [delete this.confirmations[key]]: removes an own property, if any. *)
Definition delete_confirmation (key : string) (a : Agent) : Agent :=
  mkAgent (delete key (confirmations a)) (promises a) (timers a) (clock a)
    (x402Client a) (awaiting a) (effects a).

(** [this.confirmations[key]]: an own property, else what [{}] inherits. *)
Inductive Found : Type :=
| OwnResolver (p : nat)
| FromPrototype (i : Inherited)
| Undefined.

Definition get_confirmation (key : string) (a : Agent) : Found :=
  match confirmations a !! key with
  | Some p => OwnResolver p
  | None =>
      match Object_prototype key with
      | Some i => FromPrototype i
      | None => Undefined
      end
  end.

(** [onPaymentRequired(paymentRequirements)]; [uuid] is what
    [crypto.randomUUID()] returned.  Returns the promise it made.  The key
    has at most eight characters, so it is not [__proto__] and the assignment
    makes or replaces an own property. *)
Definition onPaymentRequired (paymentRequirements : list PaymentRequirements)
    (uuid : string) (a : Agent) : nat * Agent :=
  let confirmationId := String.substring 0 8 uuid in
  let a1 := emit (Broadcast
                    (MsgPaymentRequired confirmationId paymentRequirements (clock a))) a in
  let p := length (promises a1) in
  (p, mkAgent (<[confirmationId := p]> (confirmations a1))
        (promises a1 ++ [None])
        (timers a1 ++ [mkTimer (clock a1 + 60000) confirmationId p])
        (clock a1) (x402Client a1) (awaiting a1) (effects a1)).

(** The callback given to [setTimeout]. *)
Definition timerCallback (t : Timer) (a : Agent) : Agent :=
  match get_confirmation (timer_id t) a with
  | Undefined => a
  | _ => resolve (timer_resolve t) false (delete_confirmation (timer_id t) a)
  end.

(** [ms] milliseconds pass: the timers that are due by then run, each once,
    in the order they were armed, which is the order they are due in since
    all have the same delay.  A timer runs as soon as it is due. *)
Definition elapse (ms : N) (a : Agent) : Agent :=
  let now := (clock a + ms)%N in
  let due := List.filter (λ t, (timer_due t <=? now)%N) (timers a) in
  let later := List.filter (λ t, negb (timer_due t <=? now)%N) (timers a) in
  foldl (λ s t, timerCallback t s)
    (mkAgent (confirmations a) (promises a) later now (x402Client a)
       (awaiting a) (effects a))
    due.

(** [onStart()]; [account] is what [privateKeyToAccount] returned ([None]: it
    threw), [connected] tells whether [this.mcp.connect] succeeded and
    [wrapped] whether the lookup of the connection's client and
    [withX402Client] then returned.  A throw at any of the three ends
    [onStart] there, with the client not set. *)
Definition onStart (env : Env) (account : option string) (connected wrapped : bool)
    (a : Agent) : Agent :=
  let unset :=
    emit (ConsoleError "CLIENT_WALLET_PK not set - agent cannot make payments") a in
  match CLIENT_WALLET_PK env with
  | None => unset
  | Some privateKey =>
      if String.eqb privateKey EmptyString then unset
      else
        match account with
        | None => a
        | Some address =>
            let a1 := emit (ConsoleLog ("Agent will pay from address: " +:+ address)) a in
            let base :=
              if String.eqb (CIRCULAR_RPC_URL env) EmptyString
              then "http://localhost:8787" else CIRCULAR_RPC_URL env in
            let a2 := emit (McpConnect (base +:+ "/mcp")) a1 in
            if connected then
              if wrapped then
                emit (ConsoleLog "Agent initialized and connected to MCP server")
                  (mkAgent (confirmations a2) (promises a2) (timers a2) (clock a2)
                     true (awaiting a2) (effects a2))
              else a2
            else a2
        end
  end.

(** How the [try] block of [onMessage] ends: normally, or by a throw that the
    [catch] takes; either way with the state reached. *)
Inductive Completion : Type :=
| Normal (a : Agent)
| Abrupt (a : Agent).

Inductive MessageType : Type :=
| TConfirm | TCancel | TCallTool | TListTools | TUnknown.

(** The [switch (parsed.type)], which compares with [===]. *)
Definition classify (ty : option JsValue) : MessageType :=
  match ty with
  | Some (JStr s) =>
      if String.eqb s "confirm" then TConfirm
      else if String.eqb s "cancel" then TCancel
      else if String.eqb s "call_tool" then TCallTool
      else if String.eqb s "list_tools" then TListTools
      else TUnknown
  | _ => TUnknown
  end.

(** The two statements of [case "confirm"] ([accepted] true) and of
    [case "cancel"] ([accepted] false), once the key is known:
    [this.confirmations[key]?.(accepted); delete this.confirmations[key]].
    The optional call skips [undefined] only: an inherited value that is not
    callable makes it throw. *)
Definition answer (accepted : bool) (key : string) (a : Agent) : Completion :=
  match get_confirmation key a with
  | OwnResolver p => Normal (delete_confirmation key (resolve p accepted a))
  | Undefined => Normal (delete_confirmation key a)
  | FromPrototype (InhFunction CallReturns) => Normal (delete_confirmation key a)
  | FromPrototype (InhFunction CallThrows) => Abrupt a
  | FromPrototype InhObject => Abrupt a
  end.

(** The same two statements from [parsed]: the key is
    [parsed.confirmationId] converted to a property key. *)
Definition answer_message (accepted : bool) (parsed : JsValue) (a : Agent) : Completion :=
  match member parsed "confirmationId" with
  | None => Abrupt a
  | Some id =>
      match to_property_key id with
      | None => Abrupt a
      | Some key => answer accepted key a
      end
  end.

Definition suspend (w : Awaited) (request : nat → Effect) (a : Agent) : Agent :=
  mkAgent (confirmations a) (promises a) (timers a) (clock a) (x402Client a)
    (awaiting a ++ [Some w]) (effects a ++ [request (length (awaiting a))]).

(** The [try] block of [onMessage] from the [switch] on, up to the first
    [await]. *)
Definition dispatch (conn : Connection) (parsed : JsValue) (a : Agent) : Completion :=
  match member parsed "type" with
  | None => Abrupt a
  | Some ty =>
      match classify ty with
      | TConfirm => answer_message true parsed a
      | TCancel => answer_message false parsed a
      | TCallTool =>
          if x402Client a then
            let tool := default None (member parsed "tool") in
            let args :=
              match default None (member parsed "args") with
              | Some v => if truthy v then v else JObj []
              | None => JObj []
              end in
            Normal (suspend (AwaitCallTool conn tool)
                      (λ call, ClientCallTool call tool args) a)
          else
            Normal (send conn
                      (MsgError "Agent not initialized - missing CLIENT_WALLET_PK") a)
      | TListTools =>
          if x402Client a then
            Normal (suspend (AwaitListTools conn) ClientListTools a)
          else Normal (send conn (MsgError "Agent not initialized") a)
      | TUnknown => Normal (emit (ConsoleLog "Unknown message type:") a)
      end
  end.

(** The outer [catch] of [onMessage]. *)
Definition catch_parse (conn : Connection) (a : Agent) : Agent :=
  send conn (MsgError "Failed to parse message")
    (emit (ConsoleError "Error handling message:") a).

Section WithJSON.

(** [JSON.parse]; [None] when it throws a SyntaxError. *)
Variable JSON_parse : string → option JsValue.

(** [onMessage(conn, message)], up to its first [await]. *)
Definition onMessage (conn : Connection) (message : WSMessage) (a : Agent) : Agent :=
  match message with
  | WSBinary => a
  | WSString text =>
      match JSON_parse text with
      | None => catch_parse conn a
      | Some parsed =>
          match dispatch conn parsed a with
          | Normal a' => a'
          | Abrupt a' => catch_parse conn a'
          end
      end
  end.

End WithJSON.

(** [result.content[0]?.text], or the empty text when it is missing. *)
Definition first_text (result : CallToolResult) : string :=
  match content result with
  | [] => EmptyString
  | item :: _ => default EmptyString (item_text item)
  end.

(** The rest of [case "call_tool"] once the awaited [callTool] has settled. *)
Definition afterCallTool (conn : Connection) (tool : option JsValue)
    (outcome : Settled CallToolResult) (a : Agent) : Agent :=
  match outcome with
  | Fulfilled result =>
      send conn
        (MsgTool (if isError result then "tool_error" else "tool_result")
           tool (first_text result) (clock a)) a
  | Rejected error => send conn (MsgError (message_or_unknown error)) a
  end.

(** The rest of [case "list_tools"] once the awaited [listTools] has settled. *)
Definition afterListTools (conn : Connection) (outcome : Settled JsValue)
    (a : Agent) : Agent :=
  match outcome with
  | Fulfilled tools => send conn (MsgToolsList tools) a
  | Rejected error => send conn (MsgError (message_or_unknown error)) a
  end.

(** Taking a suspended call off the list: a promise settles once, so its
    continuation runs once. *)
Definition take_awaited (call : nat) (a : Agent) : option Awaited * Agent :=
  match awaiting a !! call with
  | Some (Some w) =>
      (Some w, mkAgent (confirmations a) (promises a) (timers a) (clock a)
                 (x402Client a) (<[call := None]> (awaiting a)) (effects a))
  | _ => (None, a)
  end.

(** What the host can make the agent do. *)
Inductive Event : Type :=
| Start (env : Env) (account : option string) (connected wrapped : bool)
| Message (conn : Connection) (message : WSMessage)
| PaymentRequired (requirements : list PaymentRequirements) (uuid : string)
| Elapse (ms : N)
| CallToolSettles (call : nat) (outcome : Settled CallToolResult)
| ListToolsSettles (call : nat) (outcome : Settled JsValue).

Definition step (JSON_parse : string → option JsValue) (e : Event) (a : Agent) : Agent :=
  match e with
  | Start env account connected wrapped => onStart env account connected wrapped a
  | Message conn message => onMessage JSON_parse conn message a
  | PaymentRequired requirements uuid => snd (onPaymentRequired requirements uuid a)
  | Elapse ms => elapse ms a
  | CallToolSettles call outcome =>
      match take_awaited call a with
      | (Some (AwaitCallTool conn tool), a') => afterCallTool conn tool outcome a'
      | _ => a
      end
  | ListToolsSettles call outcome =>
      match take_awaited call a with
      | (Some (AwaitListTools conn), a') => afterListTools conn outcome a'
      | _ => a
      end
  end.

Definition run (JSON_parse : string → option JsValue) (events : list Event)
    (a : Agent) : Agent :=
  foldl (λ s e, step JSON_parse e s) a events.

(** The messages sent on connections among some effects. *)
Definition replies (es : list Effect) : list (Connection * Outbound) :=
  omap (λ e, match e with ConnSend conn m => Some (conn, m) | _ => None end) es.

(** The effects of [a'] that [a] did not have yet. *)
Definition since (a a' : Agent) : list Effect :=
  drop (length (effects a)) (effects a').

End CircularPayAgent.

(** ** The backend client ([src/circular/client.ts]) *)

Module CircularClient.

Record Request : Type := mkRequest {
  request_method : string;
  request_url : string;
  request_body : option JsValue;
}.

(** A [Response] as the client reads it; [json] is how [response.json()]
    settles. *)
Record Response : Type := mkResponse {
  ok : bool;
  status : string;
  statusText : string;
  json : Settled JsValue;
}.

(** What the client has done to the outside: the requests it issued and the
    lines it wrote with [console.error]. *)
Record World : Type := mkWorld {
  requests : list Request;
  console_errors : list string;
}.

Definition Call (A : Type) : Type := World → A * World.

(** Errors the engine raises by itself, whose message is the engine's. *)
Inductive EngineError : Type :=
| NullMember (name : string)
| NoPrimitive.

Section WithBackend.

(** [fetch]: how the request settles, given what was requested before. *)
Variable fetch : list Request → Request → Settled Response.
Variable engine_message : EngineError → string.

Definition do_fetch (r : Request) : Call (Settled Response) :=
  λ w, (fetch (requests w) r, mkWorld (requests w ++ [r]) (console_errors w)).

Definition GET (url : string) : Request := mkRequest "GET" url None.

Definition console_error (line : string) (w : World) : World :=
  mkWorld (requests w) (console_errors w ++ [line]).

(** [data.exists ?? false]; [None] when reading the member throws. *)
Definition exists_or_false (data : JsValue) : option JsValue :=
  match member data "exists" with
  | None => None
  | Some None => Some (JBool false)
  | Some (Some JNull) => Some (JBool false)
  | Some (Some v) => Some v
  end.

(** [checkWallet(address)] *)
Definition checkWallet (rpcUrl address : string) : Call JsValue :=
  λ w,
    let (r, w1) := do_fetch (GET (rpcUrl +:+ "/wallet/" +:+ address +:+ "/exists")) w in
    let caught := (JBool false, console_error "Error checking wallet:" w1) in
    match r with
    | Rejected _ => caught
    | Fulfilled response =>
        if negb (ok response) then caught
        else
          match json response with
          | Rejected _ => caught
          | Fulfilled data =>
              match exists_or_false data with
              | None => caught
              | Some v => (v, w1)
              end
          end
    end.

(** The common shape of the other methods: fetch, throw
    [new Error(failure + statusText)] unless [response.ok], then read the
    body. *)
Definition fetch_json (r : Request) (failure : string) : Call (Settled JsValue) :=
  λ w,
    let (o, w1) := do_fetch r w in
    (match o with
     | Rejected e => Rejected e
     | Fulfilled response =>
         if negb (ok response)
         then Rejected (ThrownError (failure +:+ statusText response))
         else json response
     end, w1).

(** [getWallet(address)] *)
Definition getWallet (rpcUrl address : string) : Call (Settled JsValue) :=
  fetch_json (GET (rpcUrl +:+ "/wallet/" +:+ address)) "Failed to get wallet: ".

(** [getBalance(address)]: [data.balance], which may be [undefined]. *)
Definition getBalance (rpcUrl address : string) : Call (Settled (option JsValue)) :=
  λ w,
    let (o, w1) := fetch_json (GET (rpcUrl +:+ "/wallet/" +:+ address +:+ "/balance"))
                     "Failed to get balance: " w in
    (match o with
     | Rejected e => Rejected e
     | Fulfilled data =>
         match member data "balance" with
         | None => Rejected (ThrownError (engine_message (NullMember "balance")))
         | Some v => Fulfilled v
         end
     end, w1).

(** [sendTransaction(tx)] *)
Definition sendTransaction (rpcUrl : string) (tx : JsValue) : Call (Settled JsValue) :=
  fetch_json (mkRequest "POST" (rpcUrl +:+ "/transaction") (Some tx))
    "Failed to send transaction: ".

(** [getAnalytics(metric, timeframe)] *)
Definition getAnalytics (rpcUrl metric timeframe : string) : Call (Settled JsValue) :=
  fetch_json
    (GET (rpcUrl +:+ "/analytics?metric=" +:+ metric +:+ "&timeframe=" +:+ timeframe))
    "Failed to get analytics: ".

(** [getTransactionHistory(address, limit)]: [data.transactions ?? []]. *)
Definition getTransactionHistory (rpcUrl address limit : string) : Call (Settled JsValue) :=
  λ w,
    let (o, w1) :=
      fetch_json (GET (rpcUrl +:+ "/wallet/" +:+ address +:+ "/transactions?limit=" +:+ limit))
        "Failed to get transaction history: " w in
    (match o with
     | Rejected e => Rejected e
     | Fulfilled data =>
         match member data "transactions" with
         | None => Rejected (ThrownError (engine_message (NullMember "transactions")))
         | Some None | Some (Some JNull) => Fulfilled (JArr [])
         | Some (Some v) => Fulfilled v
         end
     end, w1).

End WithBackend.

End CircularClient.

(** ** The tool server ([src/mcp-server.ts]) *)

Module CircularMCP.

Import CircularClient.

Inductive Metric : Type := transactions | volume | users.
Inductive Timeframe : Type := last24h | last7d | last30d.

Definition metric_text (m : Metric) : string :=
  match m with
  | transactions => "transactions"
  | volume => "volume"
  | users => "users"
  end.

Definition timeframe_text (t : Timeframe) : string :=
  match t with
  | last24h => "24h"
  | last7d => "7d"
  | last30d => "30d"
  end.

(** The arguments a handler receives, after the tool's zod schema accepted
    them: one shape per schema in [init].  A number is carried by its text. *)
Inductive ToolArgs : Type :=
| ArgsAddress (address : string)
| ArgsTransaction (from to amount : string) (memo : option string)
| ArgsAnalytics (metric : Metric) (timeframe : Timeframe)
| ArgsHistory (address : string) (limit : string).

(** A registered tool.  [tool_price] is absent for [server.tool] and the USD
    price for [server.paidTool].  [tool_handler] answers [None] on arguments
    of another tool's shape, which the schema rejects before the handler. *)
Record ToolDescriptor : Type := mkTool {
  tool_name : string;
  tool_description : string;
  tool_price : option Q;
  tool_handler : ToolArgs → option (Call CallToolResult);
}.

Record X402Config : Type := mkConfig {
  network : string;
  recipient : string;
  facilitator : string;
}.

Record McpServer : Type := mkServer {
  server_name : string;
  server_version : string;
  x402 : option X402Config;
  tools : list ToolDescriptor;
}.

(** [new McpServer({name, version})] *)
Definition newMcpServer (name version : string) : McpServer :=
  mkServer name version None [].

(** [withX402(server, config)] keeps the server and remembers the
    configuration that [paidTool] uses. *)
Definition withX402 (server : McpServer) (config : X402Config) : McpServer :=
  mkServer (server_name server) (server_version server) (Some config) (tools server).

Definition register (d : ToolDescriptor) (server : McpServer) : McpServer :=
  mkServer (server_name server) (server_version server) (x402 server)
    (tools server ++ [d]).

(** [server.tool(name, description, schema, handler)] *)
Definition tool (name description : string)
    (handler : ToolArgs → option (Call CallToolResult)) : McpServer → McpServer :=
  register (mkTool name description None handler).

(** [server.paidTool(name, description, priceUSD, schema, annotations, handler)] *)
Definition paidTool (name description : string) (priceUSD : Q)
    (handler : ToolArgs → option (Call CallToolResult)) : McpServer → McpServer :=
  register (mkTool name description (Some priceUSD) handler).

Definition text_result (text : string) : CallToolResult :=
  mkResult [mkContent "text" (Some text)] false.

(** What every handler's [catch] returns. *)
Definition error_result (error : Thrown) : CallToolResult :=
  mkResult [mkContent "text" (Some ("Error: " +:+ message_or_unknown error))] true.

Section WithBackend.

Variable fetch : list Request → Request → Settled Response.
Variable engine_message : EngineError → string.

(** [JSON.stringify(value, null, 2)] *)
Variable JSON_stringify : JsValue → string.

(** [this.circularClient], made from [env.CIRCULAR_RPC_URL]. *)
Variable rpcUrl : string.

(** The [try]/[catch] shared by the handlers that await a client method and
    print what it returned. *)
Definition printed {A : Type} (print : A → option string)
    (call : Call (Settled A)) : Call CallToolResult :=
  λ w,
    let (o, w1) := call w in
    (match o with
     | Rejected e => error_result e
     | Fulfilled v =>
         match print v with
         | Some text => text_result text
         | None => error_result (ThrownError (engine_message NoPrimitive))
         end
     end, w1).

Definition check_wallet_handler (args : ToolArgs) : option (Call CallToolResult) :=
  match args with
  | ArgsAddress address =>
      Some (λ w,
        let (found, w1) := checkWallet fetch rpcUrl address w in
        (text_result
           (JSON_stringify (JObj [("exists", found); ("address", JStr address)])), w1))
  | _ => None
  end.

Definition get_wallet_handler (args : ToolArgs) : option (Call CallToolResult) :=
  match args with
  | ArgsAddress address =>
      Some (printed (λ wallet, Some (JSON_stringify wallet))
              (getWallet fetch rpcUrl address))
  | _ => None
  end.

Definition get_balance_handler (args : ToolArgs) : option (Call CallToolResult) :=
  match args with
  | ArgsAddress address =>
      Some (printed
              (λ balance,
                 match template_text balance with
                 | Some b => Some ("Balance for " +:+ address +:+ ": " +:+ b)
                 | None => None
                 end)
              (getBalance fetch engine_message rpcUrl address))
  | _ => None
  end.

Definition transaction_object (from to amount : string) (memo : option string) : JsValue :=
  JObj ([("from", JStr from); ("to", JStr to); ("amount", JStr amount)]
        ++ match memo with Some m => [("memo", JStr m)] | None => [] end).

Definition send_transaction_handler (args : ToolArgs) : option (Call CallToolResult) :=
  match args with
  | ArgsTransaction from to amount memo =>
      Some (printed (λ tx, Some (JSON_stringify tx))
              (sendTransaction fetch rpcUrl (transaction_object from to amount memo)))
  | _ => None
  end.

Definition get_analytics_handler (args : ToolArgs) : option (Call CallToolResult) :=
  match args with
  | ArgsAnalytics metric timeframe =>
      Some (printed (λ analytics, Some (JSON_stringify analytics))
              (getAnalytics fetch rpcUrl (metric_text metric) (timeframe_text timeframe)))
  | _ => None
  end.

Definition get_transaction_history_handler (args : ToolArgs)
    : option (Call CallToolResult) :=
  match args with
  | ArgsHistory address limit =>
      Some (printed (λ history, Some (JSON_stringify history))
              (getTransactionHistory fetch engine_message rpcUrl address limit))
  | _ => None
  end.

End WithBackend.

Section Init.

Variable fetch : list Request → Request → Settled Response.
Variable engine_message : EngineError → string.
Variable JSON_stringify : JsValue → string.

(** [init()]: the server with its six tools, in the order of registration. *)
Definition init (env : Env) : McpServer :=
  let rpcUrl := CIRCULAR_RPC_URL env in
  let x402Config :=
    mkConfig (X402_NETWORK env) (CIRCULAR_WALLET_ADDRESS env) (FACILITATOR_URL env) in
  let server := withX402 (newMcpServer "CircularProtocolMCP" "1.0.0") x402Config in
  let server :=
    tool "check_wallet" "Check if a wallet exists on Circular Protocol"
      (check_wallet_handler fetch JSON_stringify rpcUrl) server in
  let server :=
    paidTool "get_wallet" "Get detailed wallet information from Circular Protocol"
      (1 # 1000) (get_wallet_handler fetch engine_message JSON_stringify rpcUrl) server in
  let server :=
    paidTool "get_balance" "Get wallet balance on Circular Protocol"
      (5 # 10000) (get_balance_handler fetch engine_message rpcUrl) server in
  let server :=
    paidTool "send_transaction" "Send a transaction on Circular Protocol"
      (1 # 100) (send_transaction_handler fetch engine_message JSON_stringify rpcUrl)
      server in
  let server :=
    paidTool "get_analytics" "Get analytics data from Circular Protocol"
      (5 # 1000) (get_analytics_handler fetch engine_message JSON_stringify rpcUrl)
      server in
  paidTool "get_transaction_history" "Get transaction history for a wallet"
    (2 # 1000)
    (get_transaction_history_handler fetch engine_message JSON_stringify rpcUrl) server.

End Init.

(** The registry's [lookup(name)]. *)
Definition lookup (name : string) (server : McpServer) : option ToolDescriptor :=
  List.find (λ d, String.eqb (tool_name d) name) (tools server).

(** *** The payment gate *)

(** What an invocation through the gate comes to. *)
Inductive GateOutcome : Type :=
| HandlerResult (result : CallToolResult)
| PaymentRequiredOutcome (accepts : list PaymentRequirements)
| InvalidArguments.

(** The requirement a priced tool asks for, from the static configuration. *)
Definition requirement (config : X402Config) (price : Q) : PaymentRequirements :=
  mkRequirements price (network config) (recipient config) (facilitator config).

Definition run_handler (d : ToolDescriptor) (args : ToolArgs) : Call GateOutcome :=
  λ w,
    match tool_handler d args with
    | None => (InvalidArguments, w)
    | Some handler => let (result, w1) := handler w in (HandlerResult result, w1)
    end.

(** Modelled from the spec: the gate is the wrapper that [paidTool] of the
    [agents/x402] package puts around a handler, and that package is not
    among the sources.  After the spec's contract of
    [invoke(descriptor, args, paymentProof?)]: without a price the handler
    runs; with a price and a proof that the facilitator accepts ([verify],
    an oracle) the handler runs; with a price and no proof or a refused one
    the handler does not run and the outcome is [payment_required] with the
    requirement. *)
Definition invoke (verify : string → PaymentRequirements → bool)
    (config : X402Config) (d : ToolDescriptor) (args : ToolArgs)
    (paymentProof : option string) : Call GateOutcome :=
  match tool_price d with
  | None => run_handler d args
  | Some price =>
      let required := requirement config price in
      match paymentProof with
      | Some proof =>
          if verify proof required then run_handler d args
          else λ w, (PaymentRequiredOutcome [required], w)
      | None => λ w, (PaymentRequiredOutcome [required], w)
      end
  end.

End CircularMCP.

(** ** The worker's pricing surface ([src/index.ts]) *)

Module Worker.

Record PricingEntry : Type := mkEntry {
  price : string;
  description : string;
}.

Record Pricing : Type := mkPricing {
  currency : string;
  pricing_network : string;
  pricing_facilitator : string;
  pricing_tools : list (string * PricingEntry);
}.

(** The body of the [/pricing] response. *)
Definition pricing (env : Env) : Pricing :=
  mkPricing "USD" (X402_NETWORK env) (FACILITATOR_URL env)
    [ ("check_wallet", mkEntry "free" "Check if a wallet exists");
      ("get_wallet", mkEntry "$0.001" "Get detailed wallet information");
      ("get_balance", mkEntry "$0.0005" "Get wallet balance");
      ("get_transaction_history", mkEntry "$0.002" "Get transaction history");
      ("get_analytics", mkEntry "$0.005" "Get analytics data");
      ("send_transaction", mkEntry "$0.01" "Send a transaction (state-changing)") ].

(** The [tools] of the [/docs] response. *)
Definition docs_free : list string := ["check_wallet"].
Definition docs_paid : list string :=
  ["get_wallet"; "get_balance"; "get_transaction_history"; "get_analytics";
   "send_transaction"].

Record Endpoint : Type := mkEndpoint {
  endpoint_method : string;
  endpoint_description : string;
  endpoint_protocol : option string;
}.

(** The [endpoints] of the [/docs] response. *)
Definition docs_endpoints : list (string * Endpoint) :=
  [ ("/mcp", mkEndpoint "POST" "MCP server endpoint (JSON-RPC)"
               (Some "Model Context Protocol"));
    ("/agent", mkEndpoint "GET" "Payment agent WebSocket endpoint" (Some "WebSocket"));
    ("/health", mkEndpoint "GET" "Health check" None);
    ("/pricing", mkEndpoint "GET" "Tool pricing information" None);
    ("/docs", mkEndpoint "GET" "API documentation" None) ].

(** The [payment] of the [/docs] response. *)
Record DocsPayment : Type := mkDocsPayment {
  payment_protocol : string;
  payment_network : string;
  payment_facilitator : string;
  payment_recipient : string;
}.

Definition docs_payment (env : Env) : DocsPayment :=
  mkDocsPayment "x402" (X402_NETWORK env) (FACILITATOR_URL env)
    (CIRCULAR_WALLET_ADDRESS env).

(** The [endpoints] of the welcome message. *)
Definition welcome_endpoints : list (string * string) :=
  [ ("mcp", "/mcp"); ("agent", "/agent"); ("health", "/health");
    ("pricing", "/pricing"); ("docs", "/docs") ].

(** The objects the worker passes to [JSON.stringify] as response bodies. *)
Inductive Body : Type :=
| HealthBody (status service version timestamp : string)
| PricingBody (p : Pricing)
| DocsBody (name version description : string) (endpoints : list (string * Endpoint))
    (free paid : list string) (payment : DocsPayment)
| WelcomeBody (message version : string) (endpoints : list (string * string))
    (documentation : string).

(** A [Response]; one made without a status has status 200. *)
Record HttpResponse : Type := mkHttp {
  http_status : nat;
  http_headers : list (string * string);
  http_body : Body;
}.

(** What the worker's [fetch] does with a request: hand it to the MCP
    server, hand it to the agent named [default], or answer it. *)
Inductive Routed : Type :=
| ServeMcp
| AgentFetch (name : string)
| Respond (r : HttpResponse).

Definition json_headers : list (string * string) :=
  [("Content-Type", "application/json")].

(** The default export's [fetch(request, env, ctx)]; [pathname] is
    [new URL(request.url).pathname] and [now] is
    [new Date().toISOString()]. *)
Definition fetch (pathname : string) (env : Env) (now : string) : Routed :=
  if String.eqb pathname "/mcp" then ServeMcp
  else if String.eqb pathname "/agent" then AgentFetch "default"
  else if String.eqb pathname "/health" then
    Respond (mkHttp 200 json_headers
               (HealthBody "ok" "circular-x402-gateway" "1.0.0" now))
  else if String.eqb pathname "/pricing" then
    Respond (mkHttp 200 json_headers (PricingBody (pricing env)))
  else if String.eqb pathname "/docs" then
    Respond (mkHttp 200 json_headers
               (DocsBody "Circular Protocol x402 Gateway" "1.0.0"
                  "x402-enabled MCP server for Circular Protocol operations"
                  docs_endpoints docs_free docs_paid (docs_payment env)))
  else
    Respond (mkHttp 200
               [("Content-Type", "application/json");
                ("Access-Control-Allow-Origin", "*")]
               (WelcomeBody "Circular Protocol x402 Gateway" "1.0.0" welcome_endpoints
                  "https://x402.gitbook.io/x402")).

Definition digit (c : Ascii.ascii) : option N :=
  let n := Ascii.N_of_ascii c in
  if ((48 <=? n) && (n <=? 57))%N then Some (n - 48)%N else None.

(** The number a decimal numeral denotes: [num] is the value of the digits
    read so far and [scale], once the point is passed, the power of ten that
    the fraction digits read so far divide by. *)
Fixpoint decimal (s : string) (num : N) (scale : option positive) : option Q :=
  match s with
  | EmptyString => Some (Z.of_N num # default 1%positive scale)
  | String c rest =>
      if Ascii.eqb c "."%char then
        match scale with
        | None => decimal rest num (Some 1%positive)
        | Some _ => None
        end
      else
        match digit c with
        | None => None
        | Some d => decimal rest (num * 10 + d)%N (Pos.mul 10 <$> scale)
        end
  end.

(** The amount a price text of the listing states: a dollar sign and a
    decimal numeral.  The text [free] states none. *)
Definition listed_amount (text : string) : option Q :=
  match text with
  | String "$"%char (String c rest) => decimal (String c rest) 0 None
  | _ => None
  end.

End Worker.

(** ** Vocabulary of the statements *)

Module Protocol.

Import CircularPayAgent.

(** The state inside a completion. *)
Definition state_of (c : Completion) : Agent :=
  match c with
  | Normal a => a
  | Abrupt a => a
  end.

(** The same agent with [es] in front of its trace. *)
Definition prepend (es : list Effect) (a : Agent) : Agent :=
  mkAgent (confirmations a) (promises a) (timers a) (clock a) (x402Client a)
    (awaiting a) (es ++ effects a).

(** The same agent with an empty trace. *)
Definition quiet (a : Agent) : Agent :=
  mkAgent (confirmations a) (promises a) (timers a) (clock a) (x402Client a)
    (awaiting a) [].

(** The ways a pending confirmation gets resolved: a [confirm] message, a
    [cancel] message, or the timeout of its own timer (armed for [due]). *)
Inductive Attempt : Type :=
| ByConfirm
| ByCancel
| ByTimeout (due : N).

Definition verdict (by_ : Attempt) : bool :=
  match by_ with
  | ByConfirm => true
  | ByCancel | ByTimeout _ => false
  end.

(** An attempt to resolve the confirmation registered under [id] whose
    promise is [p]. *)
Definition resolution (by_ : Attempt) (id : string) (p : nat) (a : Agent) : Completion :=
  match by_ with
  | ByConfirm => answer true id a
  | ByCancel => answer false id a
  | ByTimeout due => Normal (timerCallback (mkTimer due id p) a)
  end.

(** The key a [confirm] or [cancel] message addresses, if it is one. *)
Definition addressed (parsed : JsValue) : option string :=
  match member parsed "type" with
  | Some ty =>
      match classify ty with
      | TConfirm | TCancel =>
          match member parsed "confirmationId" with
          | Some id => to_property_key id
          | None => None
          end
      | _ => None
      end
  | None => None
  end.

(** Whether an event concerns the id: a [confirm] or [cancel] message that
    addresses it, or a payment request that draws it again. *)
Definition concerns (JSON_parse : string → option JsValue) (id : string)
    (e : Event) : bool :=
  match e with
  | Message _ (WSString text) =>
      match JSON_parse text with
      | Some parsed =>
          match addressed parsed with
          | Some key => String.eqb key id
          | None => false
          end
      | None => false
      end
  | PaymentRequired _ uuid => String.eqb (String.substring 0 8 uuid) id
  | _ => false
  end.

(** Whether an event is the settling of the awaited call [call]. *)
Definition settles (call : nat) (e : Event) : bool :=
  match e with
  | CallToolSettles k _ | ListToolsSettles k _ => Nat.eqb k call
  | _ => false
  end.

(** What holds of every state the agent reaches: a registered resolver
    belongs to a pending promise and sits under a key of at most eight
    characters; the promise of a timer exists; a timer whose promise is
    registered carries the key it is registered under; no promise is
    registered under two keys.  [ts] are the timers the statement is about. *)
Definition consistent_with (ts : list Timer) (a : Agent) : Prop :=
  (∀ id p, confirmations a !! id = Some p →
     promises a !! p = Some None ∧ (String.length id ≤ 8)%nat)
  ∧ (∀ t, t ∈ ts → (timer_resolve t < length (promises a))%nat)
  ∧ (∀ id p t, confirmations a !! id = Some p → t ∈ ts →
       timer_resolve t = p → timer_id t = id)
  ∧ (∀ id id' p, confirmations a !! id = Some p →
       confirmations a !! id' = Some p → id = id').

Definition consistent (a : Agent) : Prop := consistent_with (timers a) a.

(** The confirmation under [id] with promise [p] is registered and pending,
    and no other key holds its promise. *)
Definition waiting_for (id : string) (p : nat) (s : Agent) : Prop :=
  confirmations s !! id = Some p
  ∧ promises s !! p = Some None
  ∧ (∀ k, confirmations s !! k = Some p → k = id).

(** Its timer is armed and is the only timer that carries [id] or [p]. *)
Definition armed_for (due : N) (id : string) (p : nat) (s : Agent) : Prop :=
  mkTimer due id p ∈ timers s
  ∧ (∀ t, t ∈ timers s →
       t = mkTimer due id p ∨ (timer_id t ≠ id ∧ timer_resolve t ≠ p)).

(** It was resolved with verdict [v]: settled and no longer registered. *)
Definition settled_for (v : bool) (id : string) (p : nat) (s : Agent) : Prop :=
  promises s !! p = Some (Some v) ∧ confirmations s !! id = None.

(** The confirmation under [id] with promise [p], whose timer is due at
    [due], is where it would be had nothing else happened.  Before [due] it
    is registered and pending with its timer armed, and a [confirm] or
    [cancel] message for [id] settles it with that verdict.  From [due] on it
    is settled to false, by its timeout, and no timer carries [id]. *)
Definition undisturbed (due : N) (id : string) (p : nat) (s : Agent) : Prop :=
  ((clock s < due)%N →
     waiting_for id p s ∧ armed_for due id p s
     ∧ ∀ accepted, ∃ s', answer accepted id s = Normal s' ∧ settled_for accepted id p s')
  ∧ ((due ≤ clock s)%N →
       settled_for false id p s ∧ ∀ t, t ∈ timers s → timer_id t ≠ id).

(** Whether an event is a payment request that draws the id. *)
Definition draws (id : string) (e : Event) : bool :=
  match e with
  | PaymentRequired _ uuid => String.eqb (String.substring 0 8 uuid) id
  | _ => false
  end.

(** Whether an event is an [onStart] that ends with the client set: the key
    is there and not empty, the account was made, the connection succeeded
    and the client was wrapped. *)
Definition successful_start (e : Event) : bool :=
  match e with
  | Start env (Some _) true true =>
      match CLIENT_WALLET_PK env with
      | Some privateKey => negb (String.eqb privateKey EmptyString)
      | None => false
      end
  | _ => false
  end.

(** Every armed timer is due later than now and within a minute. *)
Definition timely (a : Agent) : Prop :=
  ∀ t, t ∈ timers a → (clock a < timer_due t ≤ clock a + 60000)%N.

(** Every registered key has a timer armed for it. *)
Definition watched (a : Agent) : Prop :=
  ∀ id p, confirmations a !! id = Some p → ∃ t, t ∈ timers a ∧ timer_id t = id.

(** The number of [payment_required] broadcasts among some effects. *)
Definition announced (es : list Effect) : nat :=
  length (List.filter
            (λ e, match e with Broadcast (MsgPaymentRequired _ _ _) => true | _ => false end)
            es).

(** An effect that the handling of a message from [conn] may have: anything
    but a broadcast or a message sent on another connection. *)
Definition private_to (conn : Connection) (e : Effect) : Prop :=
  match e with
  | ConnSend c _ => c = conn
  | Broadcast _ => False
  | _ => True
  end.

(** The ways the backend call of [checkWallet] goes wrong: the request is
    not answered, the answer is not a success, its body is not JSON, or the
    body has no [exists] member ([null] has no members at all). *)
Inductive backend_error : Settled CircularClient.Response → Prop :=
| transport_failure (e : Thrown) : backend_error (Rejected e)
| http_failure (r : CircularClient.Response) :
    CircularClient.ok r = false → backend_error (Fulfilled r)
| unreadable_body (r : CircularClient.Response) (e : Thrown) :
    CircularClient.ok r = true → CircularClient.json r = Rejected e →
    backend_error (Fulfilled r)
| missing_field (r : CircularClient.Response) (data : JsValue) :
    CircularClient.ok r = true → CircularClient.json r = Fulfilled data →
    default None (member data "exists") = None →
    backend_error (Fulfilled r).

(** The text that the client method behind a priced tool puts in front of
    the status text when the backend answers without success: [get_wallet]
    calls [getWallet], [get_balance] calls [getBalance], and so on. *)
Definition own_failure (name : string) : string :=
  if String.eqb name "get_wallet" then "Failed to get wallet: "
  else if String.eqb name "get_balance" then "Failed to get balance: "
  else if String.eqb name "send_transaction" then "Failed to send transaction: "
  else if String.eqb name "get_analytics" then "Failed to get analytics: "
  else if String.eqb name "get_transaction_history"
       then "Failed to get transaction history: "
  else EmptyString.

(** A payment proof that does not let a call through: none, or one the
    facilitator refuses for the requirement. *)
Definition unpaid (verify : string → PaymentRequirements → bool)
    (required : PaymentRequirements) (paymentProof : option string) : Prop :=
  match paymentProof with
  | None => True
  | Some proof => verify proof required = false
  end.

End Protocol.

(** ** Scenarios used as concrete inputs *)

Module Scenario.

Import CircularPayAgent.

Definition quote : string := String (Ascii.ascii_of_nat 34) EmptyString.

(** The text of [{"type":t,"confirmationId":id}]. *)
Definition id_message (t id : string) : string :=
  "{" +:+ quote +:+ "type" +:+ quote +:+ ":" +:+ quote +:+ t +:+ quote +:+ ","
  +:+ quote +:+ "confirmationId" +:+ quote +:+ ":" +:+ quote +:+ id +:+ quote +:+ "}".

(** The text of [{"type":t}]. *)
Definition type_message (t : string) : string :=
  "{" +:+ quote +:+ "type" +:+ quote +:+ ":" +:+ quote +:+ t +:+ quote +:+ "}".

(** [JSON.parse] on the texts of the scenarios; any other text is taken not
    to parse, which is what [JSON.parse] does with [not json]. *)
Definition parse (text : string) : option JsValue :=
  let with_id t id := JObj [("type", JStr t); ("confirmationId", JStr id)] in
  if String.eqb text (id_message "confirm" "3f2a9c1b") then Some (with_id "confirm" "3f2a9c1b")
  else if String.eqb text (id_message "cancel" "3f2a9c1b") then Some (with_id "cancel" "3f2a9c1b")
  else if String.eqb text (id_message "confirm" "77e0d4a6") then Some (with_id "confirm" "77e0d4a6")
  else if String.eqb text (id_message "confirm" "__proto__") then Some (with_id "confirm" "__proto__")
  else if String.eqb text (type_message "call_tool") then Some (JObj [("type", JStr "call_tool")])
  else if String.eqb text (type_message "list_tools") then Some (JObj [("type", JStr "list_tools")])
  else if String.eqb text (type_message "ping") then Some (JObj [("type", JStr "ping")])
  else None.

Definition uuid1 : string := "3f2a9c1b-5d7e-4f10-8a2b-6c9d0e1f2a3b".
Definition uuid2 : string := "77e0d4a6-1b2c-4d3e-9f40-a1b2c3d4e5f6".

Definition uuid3 : string := "a0b1c2d3-9e8f-4a7b-8c6d-5e4f3a2b1c0d".

(** Another UUID with the first eight characters of [uuid1]. *)
Definition uuid1' : string := "3f2a9c1b-0c4d-4e8f-b1a2-93d4c5b6a7f8".

(** Another UUID with the first eight characters of [uuid2]. *)
Definition uuid2' : string := "77e0d4a6-ffff-4c1d-a2b3-0f1e2d3c4b5a".

Definition requirements : list PaymentRequirements :=
  [mkRequirements (1 # 1000) "base-sepolia" "0xRecipient" "https://facilitator.example"].

(** A backend that answers every request with 404 Not Found. *)
Definition not_found (_ : list CircularClient.Request) (_ : CircularClient.Request)
    : Settled CircularClient.Response :=
  Fulfilled (CircularClient.mkResponse false "404" "Not Found"
               (Fulfilled (JObj [("error", JStr "unknown wallet")]))).

(** A facilitator that accepts the proof [paid] only. *)
Definition verify (proof : string) (_ : PaymentRequirements) : bool :=
  String.eqb proof "paid".

Definition engine_message (e : CircularClient.EngineError) : string :=
  match e with
  | CircularClient.NullMember name =>
      "Cannot read properties of null (reading '" +:+ name +:+ "')"
  | CircularClient.NoPrimitive => "Cannot convert object to primitive value"
  end.

(** A stand-in for [JSON.stringify] that tells values apart by their
    outermost shape only; the statements do not depend on the text. *)
Definition stringify (v : JsValue) : string :=
  match v with
  | JObj _ => "{...}"
  | JArr _ => "[...]"
  | _ => "..."
  end.

(** A backend that answers every request with success and the body
    [body]. *)
Definition answers (body : JsValue) (_ : list CircularClient.Request)
    (_ : CircularClient.Request) : Settled CircularClient.Response :=
  Fulfilled (CircularClient.mkResponse true "200" "OK" (Fulfilled body)).

(** [JSON.parse] on some more texts: a [confirm] without an id and a
    [call_tool] whose [args] are [null]. *)
Definition parse_more (text : string) : option JsValue :=
  if String.eqb text (type_message "confirm") then Some (JObj [("type", JStr "confirm")])
  else if String.eqb text "call get_wallet" then
    Some (JObj [("type", JStr "call_tool"); ("tool", JStr "get_wallet"); ("args", JNull)])
  else parse text.

Definition env : Env :=
  mkEnv "0xRecipient" "https://rpc.example" "https://facilitator.example"
    "base-sepolia" (Some "0xkey").

(** An agent that started and has one confirmation pending. *)
Definition one_pending : Agent :=
  run parse [Start env (Some "0xPayer") true true; PaymentRequired requirements uuid1]
    initial.

(** An agent with two confirmations pending under different ids. *)
Definition two_pending : Agent :=
  run parse [PaymentRequired requirements uuid1; Elapse 1000;
             PaymentRequired requirements uuid2] initial.

(** An agent with an older confirmation pending under a third id. *)
Definition older_pending : Agent :=
  run parse [PaymentRequired requirements uuid3; Elapse 500] initial.

(** Two payment requests, a second apart, whose UUIDs share their first
    eight characters. *)
Definition colliding : list Event :=
  [PaymentRequired requirements uuid1; Elapse 1000; PaymentRequired requirements uuid1'].

End Scenario.

(** * Properties *)

(** ** Recurring proof steps *)

(** The branches of [onStart]: it logs, connects and sets the client, and
    touches nothing else. *)
Ltac start_cases account connected wrapped :=
  unfold CircularPayAgent.onStart;
  destruct (CLIENT_WALLET_PK _) as [?|]; [|done];
  destruct (String.eqb _ EmptyString); [done|];
  destruct account; [|done]; by destruct connected, wrapped.

(** The branches of the continuation of an awaited call: it takes the call
    off the list and sends one message. *)
Ltac settle_cases a call o :=
  unfold CircularPayAgent.take_awaited;
  destruct (CircularPayAgent.awaiting a !! call) as [[[? ?|?]|]|]; try done;
  by destruct o.

(** The branches of [dispatch]; [tac] closes the two that answer a confirm
    or cancel message once the key is known. *)
Ltac dispatch_cases parsed a tac :=
  unfold CircularPayAgent.dispatch, CircularPayAgent.answer_message;
  destruct (member parsed "type"%string) as [?|]; [|done];
  destruct (CircularPayAgent.classify _); try done;
  try (by destruct (CircularPayAgent.x402Client a));
  (destruct (member parsed "confirmationId"%string) as [?|]; [|done];
   destruct (to_property_key _) as [?|]; [|done]; tac).

(** ** The trace is only ever extended *)

Section Frame.
Import CircularPayAgent Protocol.

Lemma resolve_confirmations p v a : confirmations (resolve p v a) = confirmations a.
Proof. unfold resolve. by destruct (promises a !! p) as [[|]|]. Qed.

Lemma resolve_timers p v a : timers (resolve p v a) = timers a.
Proof. unfold resolve. by destruct (promises a !! p) as [[|]|]. Qed.

Lemma resolve_clock p v a : clock (resolve p v a) = clock a.
Proof. unfold resolve. by destruct (promises a !! p) as [[|]|]. Qed.

Lemma resolve_effects p v a : effects (resolve p v a) = effects a.
Proof. unfold resolve. by destruct (promises a !! p) as [[|]|]. Qed.

Lemma resolve_length p v a : length (promises (resolve p v a)) = length (promises a).
Proof.
  unfold resolve. destruct (promises a !! p) as [[|]|]; simpl; try done.
  by rewrite length_insert.
Qed.

Lemma resolve_other p v a q :
  q ≠ p → promises (resolve p v a) !! q = promises a !! q.
Proof.
  intros Hne. unfold resolve. destruct (promises a !! p) as [[|]|]; simpl; try done.
  by rewrite list_lookup_insert_ne.
Qed.

Lemma resolve_pending p v a :
  promises a !! p = Some None → promises (resolve p v a) !! p = Some (Some v).
Proof.
  intros Hp. unfold resolve. rewrite Hp. simpl.
  apply list_lookup_insert_eq. by eapply lookup_lt_Some.
Qed.

Lemma resolve_settled p v a b :
  promises a !! p = Some (Some b) → resolve p v a = a.
Proof. intros Hp. unfold resolve. by rewrite Hp. Qed.

Lemma resolve_keeps p v a q b :
  promises a !! q = Some (Some b) → promises (resolve p v a) !! q = Some (Some b).
Proof.
  intros Hq. destruct (decide (q = p)) as [->|Hne].
  - by rewrite (resolve_settled _ _ _ _ Hq).
  - by rewrite resolve_other.
Qed.

Lemma resolve_prepend es p v a :
  resolve p v (prepend es a) = prepend es (resolve p v a).
Proof. unfold resolve. simpl. by destruct (promises a !! p) as [[|]|]. Qed.

Lemma emit_prepend es e a : emit e (prepend es a) = prepend es (emit e a).
Proof. unfold emit, prepend. simpl. by rewrite app_assoc. Qed.

Lemma timerCallback_prepend es t a :
  timerCallback t (prepend es a) = prepend es (timerCallback t a).
Proof.
  unfold timerCallback, get_confirmation. simpl.
  destruct (confirmations a !! timer_id t); [|destruct (Object_prototype (timer_id t))];
    try done; by rewrite <- resolve_prepend.
Qed.

Lemma fire_prepend es ts a :
  foldl (λ s t, timerCallback t s) (prepend es a) ts
  = prepend es (foldl (λ s t, timerCallback t s) a ts).
Proof.
  revert a. induction ts as [|t ts IH]; intros a; simpl; [done|].
  by rewrite timerCallback_prepend, IH.
Qed.

Lemma elapse_prepend es ms a : elapse ms (prepend es a) = prepend es (elapse ms a).
Proof. unfold elapse. simpl. by rewrite <- fire_prepend. Qed.

Lemma answer_prepend es accepted key a :
  answer accepted key (prepend es a)
  = match answer accepted key a with
    | Normal s => Normal (prepend es s)
    | Abrupt s => Abrupt (prepend es s)
    end.
Proof.
  unfold answer, get_confirmation. simpl.
  destruct (confirmations a !! key).
  - by rewrite resolve_prepend.
  - destruct (Object_prototype key) as [[[]|]|]; done.
Qed.

Lemma dispatch_prepend es conn parsed a :
  dispatch conn parsed (prepend es a)
  = match dispatch conn parsed a with
    | Normal s => Normal (prepend es s)
    | Abrupt s => Abrupt (prepend es s)
    end.
Proof.
  unfold dispatch, answer_message.
  destruct (member parsed "type") as [ty|]; [|done].
  destruct (classify ty).
  - destruct (member parsed "confirmationId") as [id|]; [|done].
    destruct (to_property_key id); [|done]. apply answer_prepend.
  - destruct (member parsed "confirmationId") as [id|]; [|done].
    destruct (to_property_key id); [|done]. apply answer_prepend.
  - simpl. destruct (x402Client a); unfold suspend, send, emit, prepend; simpl;
      by rewrite app_assoc.
  - simpl. destruct (x402Client a); unfold suspend, send, emit, prepend; simpl;
      by rewrite app_assoc.
  - by rewrite emit_prepend.
Qed.

Lemma catch_parse_prepend es conn a :
  catch_parse conn (prepend es a) = prepend es (catch_parse conn a).
Proof. unfold catch_parse, send. by rewrite !emit_prepend. Qed.

Lemma onMessage_prepend JSON_parse es conn m a :
  onMessage JSON_parse conn m (prepend es a)
  = prepend es (onMessage JSON_parse conn m a).
Proof.
  unfold onMessage. destruct m as [text|]; [|done].
  destruct (JSON_parse text) as [parsed|]; [|apply catch_parse_prepend].
  rewrite dispatch_prepend. destruct (dispatch conn parsed a); [done|].
  apply catch_parse_prepend.
Qed.

Lemma onStart_prepend es env account connected wrapped a :
  onStart env account connected wrapped (prepend es a)
  = prepend es (onStart env account connected wrapped a).
Proof.
  unfold onStart. destruct (CLIENT_WALLET_PK env) as [pk|]; [|apply emit_prepend].
  destruct (String.eqb pk EmptyString); [apply emit_prepend|].
  destruct account as [address|]; [|done].
  destruct connected, wrapped; unfold emit, prepend; simpl; by rewrite !app_assoc.
Qed.

Lemma step_prepend JSON_parse es e a :
  step JSON_parse e (prepend es a) = prepend es (step JSON_parse e a).
Proof.
  destruct e as [env account connected wrapped|conn m|reqs uuid|ms|call o|call o]; simpl.
  - apply onStart_prepend.
  - apply onMessage_prepend.
  - unfold prepend; simpl. by rewrite app_assoc.
  - apply elapse_prepend.
  - unfold take_awaited. simpl. destruct (awaiting a !! call) as [[[conn tool|conn]|]|]; try done.
    destruct o; unfold afterCallTool, send, emit, prepend; simpl; by rewrite app_assoc.
  - unfold take_awaited. simpl. destruct (awaiting a !! call) as [[[conn tool|conn]|]|]; try done.
    destruct o; unfold afterListTools, send, emit, prepend; simpl; by rewrite app_assoc.
Qed.

Lemma run_prepend JSON_parse es events a :
  run JSON_parse events (prepend es a) = prepend es (run JSON_parse events a).
Proof.
  revert a. induction events as [|e events IH]; intros a; [done|].
  unfold run in *. simpl. by rewrite step_prepend, IH.
Qed.

End Frame.

(** ** Handling does not depend on the trace *)

Section Usable.
Import CircularPayAgent Protocol.

Lemma prepend_quiet a : prepend (effects a) (quiet a) = a.
Proof. destruct a. unfold prepend, quiet. simpl. by rewrite app_nil_r. Qed.

Lemma since_prepend a es s :
  effects a = es → since a (prepend es s) = effects s.
Proof. intros <-. unfold since. simpl. by rewrite drop_app_length. Qed.

Lemma since_self a : since a a = [].
Proof. unfold since. apply drop_all. Qed.

(** A state that differs from another in its trace only is handled the same
    way from then on: same state, same new effects. *)
Lemma run_same_core JSON_parse events a b :
  quiet a = quiet b →
  quiet (run JSON_parse events a) = quiet (run JSON_parse events b)
  ∧ since a (run JSON_parse events a) = since b (run JSON_parse events b).
Proof.
  intros Hq.
  assert (Ha : run JSON_parse events a
               = prepend (effects a) (run JSON_parse events (quiet a)))
    by (by rewrite <- run_prepend, prepend_quiet).
  assert (Hb : run JSON_parse events b
               = prepend (effects b) (run JSON_parse events (quiet b)))
    by (by rewrite <- run_prepend, prepend_quiet).
  rewrite Ha, Hb, Hq. split; [done|].
  by rewrite !since_prepend.
Qed.

(** C10: a message that is not a string makes [onMessage] return at once: the
    agent is exactly as before, so nothing was sent (in particular no
    parse error) and no pending confirmation changed. *)
Theorem binary_message_is_ignored JSON_parse conn a :
  onMessage JSON_parse conn WSBinary a = a
  ∧ replies (since a (onMessage JSON_parse conn WSBinary a)) = [].
Proof. split; [done|]. simpl. by rewrite since_self. Qed.

(** C8: a text that [JSON.parse] rejects is answered by exactly one reply,
    the error [Failed to parse message], on the connection it came from;
    nothing but the trace changes, and every later sequence of events is
    handled as it would have been without the message: the session remains
    usable. *)
Theorem unparseable_message_gets_one_error JSON_parse conn text a events :
  JSON_parse text = None →
  let a' := onMessage JSON_parse conn (WSString text) a in
  replies (since a a') = [(conn, MsgError "Failed to parse message")]
  ∧ quiet a' = quiet a
  ∧ quiet (run JSON_parse events a') = quiet (run JSON_parse events a)
  ∧ since a' (run JSON_parse events a') = since a (run JSON_parse events a).
Proof.
  intros Hparse a'. subst a'. unfold onMessage. rewrite Hparse.
  assert (Hq : quiet (catch_parse conn a) = quiet a) by done.
  split; [|split; [done|by apply run_same_core]].
  unfold since, catch_parse, send, emit. simpl.
  rewrite <- app_assoc. by rewrite drop_app_length.
Qed.

(** The same on the agent with one pending confirmation, for the text [not json]
    followed by a confirm message. *)
Lemma unparseable_message_gets_one_error_witness :
  let a' := onMessage Scenario.parse 7 (WSString "not json") Scenario.one_pending in
  replies (since Scenario.one_pending a') = [(7, MsgError "Failed to parse message")]
  ∧ quiet a' = quiet Scenario.one_pending
  ∧ quiet (run Scenario.parse [Message 7 (WSString (Scenario.id_message "confirm" "3f2a9c1b"))] a')
    = quiet (run Scenario.parse [Message 7 (WSString (Scenario.id_message "confirm" "3f2a9c1b"))]
               Scenario.one_pending)
  ∧ since a' (run Scenario.parse [Message 7 (WSString (Scenario.id_message "confirm" "3f2a9c1b"))] a')
    = since Scenario.one_pending
        (run Scenario.parse [Message 7 (WSString (Scenario.id_message "confirm" "3f2a9c1b"))]
           Scenario.one_pending).
Proof.
  apply (unparseable_message_gets_one_error Scenario.parse 7 "not json"
           Scenario.one_pending
           [Message 7 (WSString (Scenario.id_message "confirm" "3f2a9c1b"))]).
  reflexivity.
Defined.

End Usable.

(** ** What holds of every reachable state *)

Section Invariant.
Import CircularPayAgent Protocol.

Lemma substring_length_le n m s : (String.length (String.substring n m s) ≤ m)%nat.
Proof.
  revert n m. induction s as [|c s IH]; intros [|n] [|m]; simpl; try lia.
  - specialize (IH 0 m). lia.
  - apply IH.
  - apply IH.
Qed.

Lemma delete_resolve key p v a :
  delete_confirmation key (resolve p v a) = resolve p v (delete_confirmation key a).
Proof. unfold resolve, delete_confirmation. simpl. by destruct (promises a !! p) as [[|]|]. Qed.

Lemma consistent_with_weaken ts ts' a :
  (∀ t, t ∈ ts' → t ∈ ts) → consistent_with ts a → consistent_with ts' a.
Proof.
  intros Hsub (H1 & H2 & H3 & H4). unfold consistent_with.
  split; [done|split; [|split; [|done]]].
  - intros t Ht. by apply H2, Hsub.
  - intros id p t Hid Ht. apply H3; [done|]. by apply Hsub.
Qed.

Lemma consistent_with_core ts a b :
  confirmations b = confirmations a → promises b = promises a →
  consistent_with ts a → consistent_with ts b.
Proof. unfold consistent_with. intros -> ->. done. Qed.

(** Removing a key and settling a promise that no other key holds. *)
Lemma consistent_with_settle ts key q v a :
  consistent_with ts a →
  (∀ id p, confirmations a !! id = Some p → id ≠ key → p ≠ q) →
  consistent_with ts (resolve q v (delete_confirmation key a)).
Proof.
  intros (H1 & H2 & H3 & H4) Hq.
  unfold consistent_with.
  rewrite resolve_confirmations, resolve_length. simpl.
  split; [|split; [|split]].
  - intros id p [Hne H]%lookup_delete_Some. split.
    + rewrite resolve_other by (by eapply Hq). simpl. by apply H1 in H as [? _].
    + by apply H1 in H as [_ ?].
  - done.
  - intros id p t [Hne H]%lookup_delete_Some. by apply H3.
  - intros id id' p [_ H]%lookup_delete_Some [_ H']%lookup_delete_Some. by eapply H4.
Qed.

Lemma consistent_with_delete ts key a :
  consistent_with ts a → consistent_with ts (delete_confirmation key a).
Proof.
  intros (H1 & H2 & H3 & H4). unfold consistent_with. simpl.
  split; [|split; [|split]].
  - intros id p [Hne H]%lookup_delete_Some. by apply H1.
  - done.
  - intros id p t [Hne H]%lookup_delete_Some. by apply H3.
  - intros id id' p [_ H]%lookup_delete_Some [_ H']%lookup_delete_Some. by eapply H4.
Qed.

Lemma answer_consistent ts accepted key a :
  consistent_with ts a → consistent_with ts (state_of (answer accepted key a)).
Proof.
  intros Hc. unfold answer, get_confirmation.
  destruct (confirmations a !! key) as [p|] eqn:Hkey; simpl.
  - rewrite delete_resolve. apply consistent_with_settle; [done|].
    intros id p' Hid Hne ->. destruct Hc as (_ & _ & _ & H4).
    apply Hne. by eapply H4.
  - destruct (Object_prototype key) as [[[]|]|]; simpl;
      try done; by apply consistent_with_delete.
Qed.

Lemma timerCallback_consistent ts t a :
  t ∈ ts → consistent_with ts a → consistent_with ts (timerCallback t a).
Proof.
  intros Ht Hc.
  assert (Hsettle : consistent_with ts
            (resolve (timer_resolve t) false (delete_confirmation (timer_id t) a))).
  { apply consistent_with_settle; [done|].
    intros id p Hid Hne Hp. destruct Hc as (_ & _ & H3 & _).
    apply Hne. symmetry. by eapply H3. }
  unfold timerCallback. by destruct (get_confirmation (timer_id t) a).
Qed.

Lemma fire_timers ts a : timers (foldl (λ s t, timerCallback t s) a ts) = timers a.
Proof.
  revert a. induction ts as [|t ts IH]; intros a; simpl; [done|].
  rewrite IH. unfold timerCallback.
  destruct (get_confirmation (timer_id t) a); try done; by rewrite resolve_timers.
Qed.

Lemma fire_clock ts a : clock (foldl (λ s t, timerCallback t s) a ts) = clock a.
Proof.
  revert a. induction ts as [|t ts IH]; intros a; simpl; [done|].
  rewrite IH. unfold timerCallback.
  destruct (get_confirmation (timer_id t) a); try done; by rewrite resolve_clock.
Qed.

Lemma fire_consistent ts fired a :
  (∀ t, t ∈ fired → t ∈ ts) → consistent_with ts a →
  consistent_with ts (foldl (λ s t, timerCallback t s) a fired).
Proof.
  revert a. induction fired as [|t fired IH]; intros a Hsub Hc; simpl; [done|].
  apply IH.
  - intros t' Ht'. apply Hsub. by right.
  - apply timerCallback_consistent; [|done]. apply Hsub. by left.
Qed.

Lemma elem_of_filter_bool {A} (f : A → bool) (l : list A) x :
  x ∈ List.filter f l ↔ x ∈ l ∧ f x = true.
Proof. rewrite !list_elem_of_In. apply filter_In. Qed.

Lemma elapse_consistent ms a : consistent a → consistent (elapse ms a).
Proof.
  intros Hc. unfold consistent, elapse. rewrite fire_timers. simpl.
  apply consistent_with_weaken with (ts := timers a).
  { intros t Ht. by apply elem_of_filter_bool in Ht as [Ht _]. }
  apply fire_consistent.
  - intros t Ht. by apply elem_of_filter_bool in Ht as [Ht _].
  - by apply (consistent_with_core _ a).
Qed.

Lemma onPaymentRequired_consistent reqs uuid a :
  consistent a → consistent (snd (onPaymentRequired reqs uuid a)).
Proof.
  intros (H1 & H2 & H3 & H4). unfold consistent, consistent_with. simpl.
  set (id := String.substring 0 8 uuid).
  assert (Hold : ∀ k p, confirmations a !! k = Some p → p < length (promises a)).
  { intros k p Hk. apply H1 in Hk as [Hk _]. by eapply lookup_lt_Some. }
  split; [|split; [|split]].
  - intros k p [[<- <-]|[Hne H]]%lookup_insert_Some.
    + split; [by apply list_lookup_middle|apply substring_length_le].
    + apply H1 in H as [H ?]. split; [|done]. by apply lookup_app_l_Some.
  - intros t [Ht| ->%list_elem_of_singleton]%elem_of_app; rewrite length_app; simpl.
    + apply H2 in Ht. lia.
    + lia.
  - intros k p t [[<- <-]|[Hne Hk]]%lookup_insert_Some
      [Ht| ->%list_elem_of_singleton]%elem_of_app Hres; simpl in *.
    + apply H2 in Ht. lia.
    + done.
    + by eapply H3.
    + apply Hold in Hk. lia.
  - intros k k' p [[<- <-]|[Hne Hk]]%lookup_insert_Some
      [[<- Hp]|[Hne' Hk']]%lookup_insert_Some; simpl in *; try done.
    + apply Hold in Hk'. lia.
    + apply Hold in Hk. lia.
    + by eapply H4.
Qed.

Lemma dispatch_consistent ts conn parsed a :
  consistent_with ts a → consistent_with ts (state_of (dispatch conn parsed a)).
Proof.
  intros Hc. dispatch_cases parsed a ltac:(by apply answer_consistent).
Qed.

Lemma dispatch_timers conn parsed a :
  timers (state_of (dispatch conn parsed a)) = timers a.
Proof.
  unfold dispatch, answer_message, answer.
  destruct (member parsed "type") as [ty|]; [|done].
  destruct (classify ty); try done;
    try (by destruct (x402Client a));
    (destruct (member parsed "confirmationId") as [id|]; [|done];
     destruct (to_property_key id) as [key|]; [|done];
     destruct (get_confirmation key a) as [p|[[]|]|]; simpl; try done;
     by rewrite resolve_timers).
Qed.

Lemma onMessage_consistent JSON_parse conn m a :
  consistent a → consistent (onMessage JSON_parse conn m a).
Proof.
  intros Hc. unfold onMessage. destruct m as [text|]; [|done].
  destruct (JSON_parse text) as [parsed|]; [|done].
  pose proof (dispatch_consistent (timers a) conn parsed a Hc) as Hd.
  pose proof (dispatch_timers conn parsed a) as Ht.
  unfold consistent.
  destruct (dispatch conn parsed a) as [s|s]; simpl in *; by rewrite Ht.
Qed.

Lemma step_consistent JSON_parse e a :
  consistent a → consistent (step JSON_parse e a).
Proof.
  intros Hc.
  destruct e as [env account connected wrapped|conn m|reqs uuid|ms|call o|call o]; simpl.
  - start_cases account connected wrapped.
  - by apply onMessage_consistent.
  - by apply onPaymentRequired_consistent.
  - by apply elapse_consistent.
  - settle_cases a call o.
  - settle_cases a call o.
Qed.

Lemma initial_consistent : consistent initial.
Proof.
  unfold consistent, consistent_with. simpl.
  split; [|split; [|split]]; intros *.
  - by rewrite lookup_empty.
  - by intros ?%not_elem_of_nil.
  - by rewrite lookup_empty.
  - by rewrite lookup_empty.
Qed.

(** Every state reached from a consistent one is consistent. *)
Lemma run_consistent JSON_parse events a :
  consistent a → consistent (run JSON_parse events a).
Proof.
  revert a. induction events as [|e events IH]; intros a Hc; [done|].
  apply IH. by apply step_consistent.
Qed.

End Invariant.

(** ** Resolving a confirmation *)

Section Resolution.
Import CircularPayAgent Protocol.

(** A key of at most eight characters inherits nothing that throws. *)
Lemma short_key_inherits key :
  (String.length key ≤ 8)%nat →
  Object_prototype key = None ∨ Object_prototype key = Some (InhFunction CallReturns).
Proof.
  intros Hlen. unfold Object_prototype.
  repeat match goal with
         | |- context [String.eqb key ?k] =>
             destruct (String.eqb_spec key k) as [->|_];
             [simpl in Hlen; first [lia | by right]|]
         end.
  by left.
Qed.

Lemma delete_absent key a :
  confirmations a !! key = None → delete_confirmation key a = a.
Proof.
  intros Hkey. destruct a. unfold delete_confirmation. simpl in *.
  by rewrite delete_id.
Qed.

(** What one resolution of a pending confirmation does. *)
Lemma resolution_effect by_ id p a :
  consistent a → confirmations a !! id = Some p →
  resolution by_ id p a
  = Normal (resolve p (verdict by_) (delete_confirmation id a)).
Proof.
  intros _ Hid.
  destruct by_; unfold resolution, answer, timerCallback, get_confirmation;
    cbn [timer_id timer_resolve verdict]; rewrite Hid; by rewrite ?delete_resolve.
Qed.

Lemma resolved_state by_ id p a :
  consistent a → confirmations a !! id = Some p →
  let s := resolve p (verdict by_) (delete_confirmation id a) in
  consistent s
  ∧ promises s !! p = Some (Some (verdict by_))
  ∧ confirmations s = delete id (confirmations a)
  ∧ (∀ q, q ≠ p → promises s !! q = promises a !! q).
Proof.
  intros Hc Hid s. subst s. split; [|split; [|split]].
  - unfold consistent. rewrite resolve_timers. simpl.
    apply consistent_with_settle; [done|].
    intros id' p' Hid' Hne ->. destruct Hc as (_ & _ & _ & H4).
    apply Hne. by eapply H4.
  - apply resolve_pending. simpl. destruct Hc as (H1 & _). by apply H1 in Hid as [? _].
  - by rewrite resolve_confirmations.
  - intros q Hq. by rewrite resolve_other.
Qed.

(** An attempt on a key that is not registered, its promise settled. *)
Lemma resolution_absent by_ id p a v :
  (String.length id ≤ 8)%nat →
  confirmations a !! id = None → promises a !! p = Some (Some v) →
  resolution by_ id p a = Normal a.
Proof.
  intros Hlen Hid Hp.
  destruct by_; unfold resolution, answer, timerCallback, get_confirmation;
    cbn [timer_id timer_resolve]; rewrite Hid;
    destruct (short_key_inherits id Hlen) as [-> | ->];
    rewrite ?delete_absent by done; try done.
  by rewrite (resolve_settled _ _ _ _ Hp).
Qed.

Lemma answer_keeps accepted key a q b :
  promises a !! q = Some (Some b) →
  promises (state_of (answer accepted key a)) !! q = Some (Some b).
Proof.
  intros Hq. unfold answer, get_confirmation.
  destruct (confirmations a !! key) as [p|]; simpl.
  - by apply resolve_keeps.
  - by destruct (Object_prototype key) as [[[]|]|].
Qed.

Lemma timerCallback_keeps t a q b :
  promises a !! q = Some (Some b) → promises (timerCallback t a) !! q = Some (Some b).
Proof.
  intros Hq. unfold timerCallback.
  destruct (get_confirmation (timer_id t) a); try done; by apply resolve_keeps.
Qed.

Lemma fire_keeps ts a q b :
  promises a !! q = Some (Some b) →
  promises (foldl (λ s t, timerCallback t s) a ts) !! q = Some (Some b).
Proof.
  revert a. induction ts as [|t ts IH]; intros a Hq; simpl; [done|].
  by apply IH, timerCallback_keeps.
Qed.

Lemma dispatch_keeps conn parsed a q b :
  promises a !! q = Some (Some b) →
  promises (state_of (dispatch conn parsed a)) !! q = Some (Some b).
Proof.
  intros Hq. dispatch_cases parsed a ltac:(by apply answer_keeps).
Qed.

(** A settled promise keeps its value whatever happens next. *)
Lemma step_keeps JSON_parse e a q b :
  promises a !! q = Some (Some b) → promises (step JSON_parse e a) !! q = Some (Some b).
Proof.
  intros Hq.
  destruct e as [env account connected wrapped|conn m|reqs uuid|ms|call o|call o]; simpl.
  - start_cases account connected wrapped.
  - unfold onMessage. destruct m as [text|]; [|done].
    destruct (JSON_parse text) as [parsed|]; [|done].
    pose proof (dispatch_keeps conn parsed a q b Hq).
    by destruct (dispatch conn parsed a).
  - by apply lookup_app_l_Some.
  - unfold elapse. by apply fire_keeps.
  - settle_cases a call o.
  - settle_cases a call o.
Qed.

Lemma run_keeps JSON_parse events a q b :
  promises a !! q = Some (Some b) →
  promises (run JSON_parse events a) !! q = Some (Some b).
Proof.
  revert a. induction events as [|e events IH]; intros a Hq; [done|].
  by apply IH, step_keeps.
Qed.

Lemma answer_settled v id p accepted key s :
  settled_for v id p s → settled_for v id p (state_of (answer accepted key s)).
Proof.
  intros [Hp Hid]. split; [by apply answer_keeps|].
  unfold answer, get_confirmation.
  destruct (confirmations s !! key) as [q|]; simpl.
  - rewrite resolve_confirmations. by apply lookup_delete_None; right.
  - destruct (Object_prototype key) as [[[]|]|]; simpl; try done;
      by apply lookup_delete_None; right.
Qed.

Lemma timerCallback_settled v id p t s :
  settled_for v id p s → settled_for v id p (timerCallback t s).
Proof.
  intros [Hp Hid]. split; [by apply timerCallback_keeps|].
  unfold timerCallback.
  destruct (get_confirmation (timer_id t) s); try done;
    rewrite resolve_confirmations; simpl; by apply lookup_delete_None; right.
Qed.

Lemma fire_settled v id p ts s :
  settled_for v id p s → settled_for v id p (foldl (λ s t, timerCallback t s) s ts).
Proof.
  revert s. induction ts as [|t ts IH]; intros s Hs; simpl; [done|].
  by apply IH, timerCallback_settled.
Qed.

Lemma dispatch_settled v id p conn parsed s :
  settled_for v id p s → settled_for v id p (state_of (dispatch conn parsed s)).
Proof.
  intros Hs. dispatch_cases parsed s ltac:(by apply answer_settled).
Qed.

(** A resolved confirmation stays resolved and unregistered as long as no
    payment request draws its id again. *)
Lemma step_settled JSON_parse v id p e s :
  draws id e = false →
  settled_for v id p s → settled_for v id p (step JSON_parse e s).
Proof.
  intros He Hs.
  destruct e as [env account connected wrapped|conn m|reqs uuid|ms|call o|call o]; simpl.
  - start_cases account connected wrapped.
  - unfold onMessage. destruct m as [text|]; [|done].
    destruct (JSON_parse text) as [parsed|]; [|done].
    pose proof (dispatch_settled v id p conn parsed s Hs).
    by destruct (dispatch conn parsed s).
  - simpl in He. apply String.eqb_neq in He. destruct Hs as [Hp Hid].
    split; simpl; [by apply lookup_app_l_Some|by rewrite lookup_insert_ne].
  - unfold elapse. apply fire_settled. by destruct Hs.
  - settle_cases s call o.
  - settle_cases s call o.
Qed.

Lemma run_settled JSON_parse v id p events s :
  (∀ e, e ∈ events → draws id e = false) →
  settled_for v id p s → settled_for v id p (run JSON_parse events s).
Proof.
  revert s. induction events as [|e events IH]; intros s Hev Hs; [done|].
  apply IH.
  - intros e' He'. apply Hev. by right.
  - apply step_settled; [|done]. apply Hev. by left.
Qed.

(** Registered keys stay within eight characters. *)
Lemma consistent_key_length a id p :
  consistent a → confirmations a !! id = Some p → (String.length id ≤ 8)%nat.
Proof. intros (H1 & _) Hid. by apply H1 in Hid as [_ ?]. Qed.

(** C2: once a pending confirmation has been resolved, by a confirm
    message, a cancel message or its timeout, its promise holds the verdict
    of that first resolution.  A second attempt of any of the three kinds for
    the same id, at once or after any events among which no payment request
    draws the id again, completes normally (nothing is thrown) and leaves the
    agent exactly as it was, trace included.  And whatever happens later, the
    recorded verdict never changes. *)
Theorem second_resolution_is_noop JSON_parse a id p first second between events :
  consistent a →
  confirmations a !! id = Some p →
  (∀ e, e ∈ between → draws id e = false) →
  ∃ a1,
    resolution first id p a = Normal a1
    ∧ promises a1 !! p = Some (Some (verdict first))
    ∧ (let s := run JSON_parse between a1 in
       promises s !! p = Some (Some (verdict first))
       ∧ resolution second id p s = Normal s)
    ∧ promises (run JSON_parse events a1) !! p = Some (Some (verdict first)).
Proof.
  intros Hc Hid Hbetween.
  destruct (resolved_state first id p a Hc Hid) as (_ & Hp & Hconf & _).
  eexists. split; [by apply resolution_effect|].
  split; [done|]. split; [|by apply run_keeps].
  destruct (run_settled JSON_parse (verdict first) id p between
              (resolve p (verdict first) (delete_confirmation id a)) Hbetween)
    as [Hp' Hid'].
  { split; [done|]. by rewrite Hconf, lookup_delete_eq. }
  split; [done|].
  eapply resolution_absent; [by eapply consistent_key_length|done|done].
Qed.

End Resolution.

(** ** Two confirmations under different ids *)

Section Independence.
Import CircularPayAgent Protocol.

(** Resolving one pending confirmation leaves one under another id pending. *)
Lemma resolution_leaves_other by_ id p id' p' a :
  consistent a → id ≠ id' →
  confirmations a !! id = Some p → confirmations a !! id' = Some p' →
  ∃ s, resolution by_ id p a = Normal s
       ∧ consistent s
       ∧ promises s !! p = Some (Some (verdict by_))
       ∧ confirmations s !! id' = Some p'
       ∧ promises s !! p' = Some None.
Proof.
  intros Hc Hne Hid Hid'.
  destruct (resolved_state by_ id p a Hc Hid) as (Hcs & Hp & Hconf & Hother).
  eexists. split; [by apply resolution_effect|].
  split; [done|]. split; [done|].
  assert (Hkept : confirmations
            (resolve p (verdict by_) (delete_confirmation id a)) !! id' = Some p')
    by (by rewrite Hconf, lookup_delete_ne).
  split; [done|]. destruct Hcs as (H1 & _). by apply H1 in Hkept as [? _].
Qed.

End Independence.

(** ** The timeout of a confirmation *)

Section Timeout.
Import CircularPayAgent Protocol.

Variable JSON_parse : string → option JsValue.
Variable id : string.
Variable p : nat.
Variable due : N.

#[local] Abbreviation T := (mkTimer due id p).
#[local] Abbreviation waiting := (waiting_for id p).
#[local] Abbreviation armed := (armed_for due id p).
#[local] Abbreviation timed_out := (settled_for false id p).

Lemma waiting_core s s' :
  confirmations s' = confirmations s → promises s' = promises s →
  waiting s → waiting s'.
Proof. unfold waiting_for. by intros -> ->. Qed.

Lemma answer_waiting accepted key s :
  key ≠ id → waiting s → waiting (state_of (answer accepted key s)).
Proof.
  intros Hne (Hid & Hp & Hinj). unfold answer, get_confirmation.
  destruct (confirmations s !! key) as [q|] eqn:Hkey; simpl.
  - assert (q ≠ p) by (intros ->; by apply Hne, Hinj).
    rewrite delete_resolve. unfold waiting_for.
    rewrite resolve_confirmations, resolve_other by done. simpl.
    split; [by rewrite lookup_delete_ne|]. split; [done|].
    intros k [_ Hk]%lookup_delete_Some. by apply Hinj.
  - assert (waiting (delete_confirmation key s)).
    { unfold waiting_for. simpl. split; [by rewrite lookup_delete_ne|]. split; [done|].
      intros k [_ Hk]%lookup_delete_Some. by apply Hinj. }
    by destruct (Object_prototype key) as [[[]|]|].
Qed.

Lemma timerCallback_waiting t s :
  timer_id t ≠ id → timer_resolve t ≠ p → waiting s → waiting (timerCallback t s).
Proof.
  intros Hne Hres (Hid & Hp & Hinj).
  assert (waiting (resolve (timer_resolve t) false (delete_confirmation (timer_id t) s))).
  { unfold waiting_for. rewrite resolve_confirmations, resolve_other by done. simpl.
    split; [by rewrite lookup_delete_ne|]. split; [done|].
    intros k [_ Hk]%lookup_delete_Some. by apply Hinj. }
  unfold timerCallback. by destruct (get_confirmation (timer_id t) s).
Qed.

(** The confirmation's own timer settles it. *)
Lemma own_timer_fires s : waiting s → timed_out (timerCallback T s).
Proof.
  intros (Hid & Hp & _). unfold timerCallback, get_confirmation. simpl.
  rewrite Hid. split.
  - by apply resolve_pending.
  - rewrite resolve_confirmations. simpl. apply lookup_delete_eq.
Qed.

(** Running a batch of timers: the confirmation still waits if its own timer
    is not among them, and has timed out if it is. *)
Lemma fire_batch ts s :
  (∀ t, t ∈ ts → t = T ∨ (timer_id t ≠ id ∧ timer_resolve t ≠ p)) →
  waiting s →
  let s' := foldl (λ s t, timerCallback t s) s ts in
  (T ∉ ts → waiting s') ∧ (T ∈ ts → timed_out s').
Proof.
  revert s. induction ts as [|t ts IH]; intros s Hts Hs; simpl.
  - split; [done|]. by intros ?%not_elem_of_nil.
  - destruct (Hts t) as [-> | [Hne Hres]]; [by left| |].
    + split; [intros Hnot; exfalso; apply Hnot; by left|].
      intros _. by apply fire_settled, own_timer_fires.
    + destruct (IH (timerCallback t s)) as [Hno Hyes].
      { intros t' Ht'. apply Hts. by right. }
      { by apply timerCallback_waiting. }
      split.
      * intros Hnot. apply Hno. intros Hin. apply Hnot. by right.
      * intros [Heq|Hin]%elem_of_cons; [|by apply Hyes]. by subst t.
Qed.

Lemma dispatch_waiting conn parsed s :
  (∀ key, addressed parsed = Some key → key ≠ id) →
  waiting s → waiting (state_of (dispatch conn parsed s)).
Proof.
  intros Hkey Hs. unfold addressed in Hkey. unfold dispatch, answer_message.
  destruct (member parsed "type") as [ty|]; [|done].
  destruct (classify ty); try done; try (by destruct (x402Client s));
    (destruct (member parsed "confirmationId") as [v|]; [|done];
     destruct (to_property_key v) as [key|]; [|done];
     apply answer_waiting; [by apply Hkey|done]).
Qed.

Lemma dispatch_clock conn parsed s :
  clock (state_of (dispatch conn parsed s)) = clock s.
Proof.
  unfold dispatch, answer_message, answer.
  destruct (member parsed "type") as [ty|]; [|done].
  destruct (classify ty); try done;
    try (by destruct (x402Client s));
    (destruct (member parsed "confirmationId") as [v|]; [|done];
     destruct (to_property_key v) as [key|]; [|done];
     destruct (get_confirmation key s) as [q|[[]|]|]; simpl; try done;
     by rewrite resolve_clock).
Qed.

(** What an event that does not concern [id] leaves in place while the
    confirmation waits for a timer that is not due yet. *)
Lemma step_waiting e s :
  concerns JSON_parse id e = false →
  waiting s → armed s → (clock s < due)%N →
  let s' := step JSON_parse e s in
  (waiting s' ∧ armed s' ∧ (clock s' < due)%N)
  ∨ (timed_out s' ∧ (∀ t, t ∈ timers s' → timer_id t ≠ id) ∧ (due ≤ clock s')%N).
Proof.
  intros Hquiet Hw [HT Hothers] Hclock.
  destruct e as [env account connected wrapped|conn m|reqs uuid|ms|call o|call o]; simpl.
  - left. start_cases account connected wrapped.
  - left. unfold onMessage. destruct m as [text|]; [|done].
    simpl in Hquiet.
    destruct (JSON_parse text) as [parsed|]; [|done].
    pose proof (dispatch_waiting conn parsed s) as Hd.
    pose proof (dispatch_timers conn parsed s) as Ht.
    pose proof (dispatch_clock conn parsed s) as Hc.
    assert (Hkeys : ∀ key, addressed parsed = Some key → key ≠ id).
    { intros key Hk. rewrite Hk in Hquiet. by apply String.eqb_neq. }
    specialize (Hd Hkeys Hw).
    destruct (dispatch conn parsed s) as [s'|s']; simpl in *;
      unfold armed_for; simpl; by rewrite Ht, Hc.
  - left. simpl in Hquiet. apply String.eqb_neq in Hquiet.
    destruct Hw as (Hid & Hp & Hinj).
    assert (Hlt : p < length (promises s)) by (by eapply lookup_lt_Some).
    split; [|split; [|done]].
    + unfold waiting_for. simpl. split; [by rewrite lookup_insert_ne|].
      split; [by apply lookup_app_l_Some|].
      intros k [[_ Hk]|[_ Hk]]%lookup_insert_Some; [lia|by apply Hinj].
    + unfold armed_for. simpl. split; [apply elem_of_app; by left|].
      intros t [Ht| ->%list_elem_of_singleton]%elem_of_app; [by apply Hothers|].
      right. simpl. split; [done|lia].
  - unfold elapse. set (now := (clock s + ms)%N).
    set (s0 := mkAgent _ _ _ _ _ _ _).
    assert (Hw0 : waiting s0) by (by apply (waiting_core s)).
    destruct (fire_batch (List.filter (λ t, (timer_due t <=? now)%N) (timers s)) s0)
      as [Hno Hyes]; [|done|].
    { intros t [Ht _]%elem_of_filter_bool. by apply Hothers. }
    unfold armed_for. rewrite fire_timers, fire_clock. simpl.
    destruct (N.leb_spec due now) as [Hdue|Hnot].
    + right. split; [|split; [|done]].
      * apply Hyes, elem_of_filter_bool. split; [done|]. by apply N.leb_le.
      * intros t [Ht Hlate]%elem_of_filter_bool.
        destruct (Hothers t Ht) as [-> | [? _]]; [|done].
        simpl in Hlate. apply negb_true_iff, N.leb_gt in Hlate. lia.
    + left. split; [|split; [|done]].
      * apply Hno. intros [_ Hd]%elem_of_filter_bool. simpl in Hd.
        apply N.leb_le in Hd. lia.
      * split.
        -- apply elem_of_filter_bool. split; [done|]. simpl.
           by apply negb_true_iff, N.leb_gt.
        -- intros t [Ht _]%elem_of_filter_bool. by apply Hothers.
  - left. settle_cases s call o.
  - left. settle_cases s call o.
Qed.

Lemma elapse_clock ms s : clock (elapse ms s) = (clock s + ms)%N.
Proof. unfold elapse. by rewrite fire_clock. Qed.

Lemma concerns_draws e : concerns JSON_parse id e = false → draws id e = false.
Proof. by destruct e. Qed.

Lemma step_timers_without e s :
  draws id e = false →
  (∀ t, t ∈ timers s → timer_id t ≠ id) →
  ∀ t, t ∈ timers (step JSON_parse e s) → timer_id t ≠ id.
Proof.
  intros He Hts.
  destruct e as [env account connected wrapped|conn m|reqs uuid|ms|call o|call o]; simpl.
  - start_cases account connected wrapped.
  - unfold onMessage. destruct m as [text|]; [|done].
    destruct (JSON_parse text) as [parsed|]; [|done].
    pose proof (dispatch_timers conn parsed s) as Ht.
    destruct (dispatch conn parsed s) as [s'|s']; simpl in *; by rewrite Ht.
  - simpl in He. apply String.eqb_neq in He.
    intros t [Ht| ->%list_elem_of_singleton]%elem_of_app; [by apply Hts|done].
  - unfold elapse. rewrite fire_timers. simpl.
    intros t [Ht _]%elem_of_filter_bool. by apply Hts.
  - settle_cases s call o.
  - settle_cases s call o.
Qed.

Lemma step_clock_grows e s : (clock s ≤ clock (step JSON_parse e s))%N.
Proof.
  destruct e as [env account connected wrapped|conn m|reqs uuid|ms|call o|call o]; simpl.
  - start_cases account connected wrapped.
  - unfold onMessage. destruct m as [text|]; [|done].
    destruct (JSON_parse text) as [parsed|]; [|done].
    pose proof (dispatch_clock conn parsed s) as Hc.
    destruct (dispatch conn parsed s) as [s'|s']; simpl in *; by rewrite Hc.
  - done.
  - rewrite elapse_clock. lia.
  - settle_cases s call o.
  - settle_cases s call o.
Qed.

(** Once timed out, always: no event that does not draw [id] again brings the
    confirmation back or arms a timer for it. *)
Lemma step_timed_out e s :
  concerns JSON_parse id e = false →
  timed_out s → (∀ t, t ∈ timers s → timer_id t ≠ id) → (due ≤ clock s)%N →
  let s' := step JSON_parse e s in
  timed_out s' ∧ (∀ t, t ∈ timers s' → timer_id t ≠ id) ∧ (due ≤ clock s')%N.
Proof.
  intros Hquiet%concerns_draws Hs Hts Hclock. split; [|split].
  - by apply step_settled.
  - by apply step_timers_without.
  - pose proof (step_clock_grows e s). lia.
Qed.

Lemma run_waiting events s :
  (∀ e, e ∈ events → concerns JSON_parse id e = false) →
  waiting s → armed s → (clock s < due)%N →
  let s' := run JSON_parse events s in
  (waiting s' ∧ armed s' ∧ (clock s' < due)%N)
  ∨ (timed_out s' ∧ (∀ t, t ∈ timers s' → timer_id t ≠ id) ∧ (due ≤ clock s')%N).
Proof.
  revert s. induction events as [|e events IH]; intros s Hquiet Hw Ha Hclock.
  { by left. }
  assert (He : concerns JSON_parse id e = false) by (apply Hquiet; by left).
  assert (Hrest : ∀ e', e' ∈ events → concerns JSON_parse id e' = false)
    by (intros e' He'; apply Hquiet; by right).
  destruct (step_waiting e s He Hw Ha Hclock) as [(Hw' & Ha' & Hc')|(Hd & Hts & Hc')].
  - by apply IH.
  - right. clear IH Hw Ha Hclock Hquiet He.
    change (run JSON_parse (e :: events) s)
      with (run JSON_parse events (step JSON_parse e s)).
    revert Hd Hts Hc'. generalize (step JSON_parse e s). clear s.
    induction events as [|e' events IH]; intros s Hd Hts Hc; [done|].
    destruct (step_timed_out e' s) as (Hd' & Hts' & Hc'); try done.
    { apply Hrest. by left. }
    apply IH; try done. intros e'' He''. apply Hrest. by right.
Qed.

End Timeout.

Section TimeoutClaim.
Import CircularPayAgent Protocol.

Lemma filter_none {A} (f : A → bool) (l : list A) :
  (∀ x, x ∈ l → f x = false) → List.filter f l = [].
Proof.
  induction l as [|x l IH]; intros Hl; simpl; [done|].
  rewrite (Hl x) by (by left). apply IH. intros y Hy. apply Hl. by right.
Qed.

(** The timeout and a cancel message do the same to a registered
    confirmation. *)
Lemma timeout_is_cancel due id p s :
  confirmations s !! id = Some p →
  answer false id s = Normal (timerCallback (mkTimer due id p) s).
Proof.
  intros Hid. unfold answer, timerCallback, get_confirmation. simpl.
  by rewrite Hid, delete_resolve.
Qed.

(** C3, as amended: take a payment request whose id no armed timer carries,
    and any later events among which no message addresses the id and no
    request draws it again.  Exactly one timer is armed for the id, due 60000
    ms after the request.  Before that time the confirmation is registered
    and pending with its timer armed; from that time on its promise is
    settled to false, the id is no longer registered and no timer carries it,
    so nothing fires for it again.  What the timer does is what a cancel
    message for the id does. *)
Theorem timeout_settles_false JSON_parse a reqs uuid events :
  consistent a →
  (∀ t, t ∈ timers a → timer_id t ≠ String.substring 0 8 uuid) →
  (∀ e, e ∈ events → concerns JSON_parse (String.substring 0 8 uuid) e = false) →
  let id := String.substring 0 8 uuid in
  let p := fst (onPaymentRequired reqs uuid a) in
  let a0 := snd (onPaymentRequired reqs uuid a) in
  let due := (clock a + 60000)%N in
  let final := run JSON_parse events a0 in
  List.filter (λ t, String.eqb (timer_id t) id) (timers a0) = [mkTimer due id p]
  ∧ ((clock final < due)%N →
       confirmations final !! id = Some p ∧ promises final !! p = Some None
       ∧ mkTimer due id p ∈ timers final)
  ∧ ((due ≤ clock final)%N →
       promises final !! p = Some (Some false) ∧ confirmations final !! id = None
       ∧ ∀ t, t ∈ timers final → timer_id t ≠ id)
  ∧ (∀ s, confirmations s !! id = Some p →
       answer false id s = Normal (timerCallback (mkTimer due id p) s)).
Proof.
  intros Hc Hfresh Hquiet id p a0 due final.
  destruct Hc as (H1 & H2 & _ & _).
  assert (Hw : waiting_for id p a0).
  { unfold waiting_for. subst a0 p id. simpl.
    split; [apply lookup_insert_eq|]. split; [by apply list_lookup_middle|].
    intros k [[? _]|[_ Hk]]%lookup_insert_Some; [done|].
    apply H1 in Hk as [Hk _]. apply lookup_lt_Some in Hk. lia. }
  assert (Ha : armed_for due id p a0).
  { unfold armed_for. subst a0 p id due. simpl.
    split; [apply elem_of_app; right; by left|].
    intros t [Ht| ->%list_elem_of_singleton]%elem_of_app; [|by left].
    right. split; [by apply Hfresh|]. apply H2 in Ht. lia. }
  assert (Hclock : (clock a0 < due)%N) by (subst a0 due; simpl; lia).
  split; [|split; [|split]].
  - subst a0 p id due. simpl. rewrite List.filter_app, filter_none; simpl.
    + by rewrite String.eqb_refl.
    + intros t Ht. apply String.eqb_neq. by apply Hfresh.
  - intros Hearly.
    destruct (run_waiting JSON_parse id p due events a0 Hquiet Hw Ha Hclock)
      as [((Hid & Hp & _) & (HT & _) & _)|(_ & _ & Hlate)]; [done|].
    fold final in Hlate. lia.
  - intros Hlate.
    destruct (run_waiting JSON_parse id p due events a0 Hquiet Hw Ha Hclock)
      as [(_ & _ & Hearly)|([Hp Hid] & Hts & _)]; [|done].
    fold final in Hearly. lia.
  - intros s. apply timeout_is_cancel.
Qed.

End TimeoutClaim.

(** ** Two confirmations over whole traces *)

Section Concurrent.
Import CircularPayAgent Protocol.

(** A payment request whose id no armed timer carries leaves its
    confirmation waiting with its own timer armed. *)
Lemma request_waits reqs uuid a :
  consistent a →
  (∀ t, t ∈ timers a → timer_id t ≠ String.substring 0 8 uuid) →
  let id := String.substring 0 8 uuid in
  let p := fst (onPaymentRequired reqs uuid a) in
  let a0 := snd (onPaymentRequired reqs uuid a) in
  waiting_for id p a0 ∧ armed_for (clock a + 60000) id p a0.
Proof.
  intros (H1 & H2 & _ & _) Hfresh id p a0. split.
  - unfold waiting_for. subst a0 p id. simpl.
    split; [apply lookup_insert_eq|]. split; [by apply list_lookup_middle|].
    intros k [[? _]|[_ Hk]]%lookup_insert_Some; [done|].
    apply H1 in Hk as [Hk _]. apply lookup_lt_Some in Hk. lia.
  - unfold armed_for. subst a0 p id. simpl.
    split; [apply elem_of_app; right; by left|].
    intros t [Ht| ->%list_elem_of_singleton]%elem_of_app; [|by left].
    right. split; [by apply Hfresh|]. apply H2 in Ht. lia.
Qed.

Lemma timerCallback_effects t a : effects (timerCallback t a) = effects a.
Proof.
  unfold timerCallback.
  destruct (get_confirmation (timer_id t) a); try done; by rewrite resolve_effects.
Qed.

Lemma fire_effects ts a :
  effects (foldl (λ s t, timerCallback t s) a ts) = effects a.
Proof.
  revert a. induction ts as [|t ts IH]; intros a; simpl; [done|].
  by rewrite IH, timerCallback_effects.
Qed.

(** The timer callbacks add nothing to the trace and make no promise. *)
Lemma elapse_adds_nothing ms a :
  effects (elapse ms a) = effects a
  ∧ length (promises (elapse ms a)) = length (promises a).
Proof.
  unfold elapse. rewrite fire_effects. split; [done|].
  set (s0 := mkAgent _ _ _ _ _ _ _).
  change (length (promises a)) with (length (promises s0)).
  generalize s0. clear s0.
  induction (List.filter _ (timers a)) as [|t ts IH]; intros s; simpl; [done|].
  rewrite IH. unfold timerCallback.
  destruct (get_confirmation (timer_id t) s); try done; by rewrite resolve_length.
Qed.

Lemma dispatch_promises_length conn parsed a :
  length (promises (state_of (dispatch conn parsed a))) = length (promises a).
Proof.
  unfold dispatch, answer_message, answer.
  destruct (member parsed "type") as [ty|]; [|done].
  destruct (classify ty); try done;
    try (by destruct (x402Client a));
    (destruct (member parsed "confirmationId") as [id|]; [|done];
     destruct (to_property_key id) as [key|]; [|done];
     destruct (get_confirmation key a) as [p|[[]|]|]; simpl; try done;
     by rewrite resolve_length).
Qed.

(** Promises are made and settled, never dropped. *)
Lemma step_promises_length JSON_parse e a :
  (length (promises a) ≤ length (promises (step JSON_parse e a)))%nat.
Proof.
  destruct e as [env account connected wrapped|conn m|reqs uuid|ms|call o|call o]; simpl.
  - start_cases account connected wrapped.
  - unfold onMessage. destruct m as [text|]; [|done].
    destruct (JSON_parse text) as [parsed|]; [|done].
    pose proof (dispatch_promises_length conn parsed a) as Hl.
    destruct (dispatch conn parsed a) as [s|s]; simpl in *; by rewrite Hl.
  - rewrite length_app. lia.
  - destruct (elapse_adds_nothing ms a) as [_ ->]. done.
  - settle_cases a call o.
  - settle_cases a call o.
Qed.

Lemma run_promises_length JSON_parse events a :
  (length (promises a) ≤ length (promises (run JSON_parse events a)))%nat.
Proof.
  revert a. induction events as [|e events IH]; intros a; [done|].
  change (run JSON_parse (e :: events) a)
    with (run JSON_parse events (step JSON_parse e a)).
  pose proof (step_promises_length JSON_parse e a). pose proof (IH (step JSON_parse e a)).
  lia.
Qed.

(** What [run_waiting] concludes is what [undisturbed] says. *)
Lemma waiting_or_timed_out due id p s :
  (waiting_for id p s ∧ armed_for due id p s ∧ (clock s < due)%N)
  ∨ (settled_for false id p s ∧ (∀ t, t ∈ timers s → timer_id t ≠ id)
     ∧ (due ≤ clock s)%N) →
  undisturbed due id p s.
Proof.
  intros [(Hw & Ha & Hearly)|(Hd & Hts & Hlate)]; (split; [|intros ?; try lia; done]).
  - intros _. split; [done|]. split; [done|]. intros accepted.
    destruct Hw as (Hk & Hp & _).
    unfold answer, get_confirmation. rewrite Hk.
    eexists. split; [done|]. rewrite delete_resolve. split.
    + by apply resolve_pending.
    + rewrite resolve_confirmations. simpl. apply lookup_delete_eq.
  - intros ?. lia.
Qed.

(** C5, as amended.  Two payment requests are made, the second any time
    after the first; their ids, the first eight characters of the UUIDs
    drawn, differ.  Then the two confirmations have different promises, and
    each is tracked on its own, provided no timer armed when its request is
    made carries its id.  Whatever happens to the other confirmation
    (a confirm or a cancel message for it, its timeout, even its id being
    drawn again) and whatever else happens, as long as no message addresses
    this one's id and no request draws it again, this one is where it would
    be had nothing else happened: registered and pending with its timer armed
    until a minute after its request, so that a confirm or cancel message for
    its id settles it with that verdict, and settled to false by its own
    timeout from then on.  An outcome, once settled, is never changed by
    anything. *)
Theorem distinct_ids_are_independent JSON_parse a reqs1 uuid1 reqs2 uuid2 events1 events2 :
  consistent a →
  String.substring 0 8 uuid1 ≠ String.substring 0 8 uuid2 →
  let id1 := String.substring 0 8 uuid1 in
  let id2 := String.substring 0 8 uuid2 in
  let p1 := fst (onPaymentRequired reqs1 uuid1 a) in
  let s1 := run JSON_parse events1 (snd (onPaymentRequired reqs1 uuid1 a)) in
  let p2 := fst (onPaymentRequired reqs2 uuid2 s1) in
  let final := run JSON_parse events2 (snd (onPaymentRequired reqs2 uuid2 s1)) in
  p1 ≠ p2
  ∧ ((∀ t, t ∈ timers a → timer_id t ≠ id1) →
     (∀ e, e ∈ (events1 ++ events2)%list → concerns JSON_parse id1 e = false) →
     undisturbed (clock a + 60000) id1 p1 final)
  ∧ ((∀ t, t ∈ timers s1 → timer_id t ≠ id2) →
     (∀ e, e ∈ events2 → concerns JSON_parse id2 e = false) →
     undisturbed (clock s1 + 60000) id2 p2 final)
  ∧ (∀ q v events,
       promises final !! q = Some (Some v) →
       promises (run JSON_parse events final) !! q = Some (Some v)).
Proof.
  intros Hc Hne id1 id2 p1 s1 p2 final.
  set (a1 := snd (onPaymentRequired reqs1 uuid1 a)).
  assert (Hcs1 : consistent s1) by (by apply run_consistent, onPaymentRequired_consistent).
  split; [|split; [|split]].
  - pose proof (run_promises_length JSON_parse events1 a1) as Hl.
    change (run JSON_parse events1 a1) with s1 in Hl.
    subst a1 p1 p2. simpl in *. rewrite length_app in Hl. simpl in Hl. lia.
  - intros Hfresh Hquiet.
    destruct (request_waits reqs1 uuid1 a Hc Hfresh) as [Hw Ha].
    assert (Hfinal : final
              = run JSON_parse (events1 ++ PaymentRequired reqs2 uuid2 :: events2) a1).
    { subst final s1. unfold run. by rewrite foldl_app. }
    apply waiting_or_timed_out. rewrite Hfinal.
    apply run_waiting; [|done|done|simpl; lia].
    intros e [He|[->|He]%elem_of_cons]%elem_of_app.
    + apply Hquiet, elem_of_app. by left.
    + simpl. apply String.eqb_neq. by intros ?.
    + apply Hquiet, elem_of_app. by right.
  - intros Hfresh Hquiet.
    destruct (request_waits reqs2 uuid2 s1 Hcs1 Hfresh) as [Hw Ha].
    apply waiting_or_timed_out. apply run_waiting; [done|done|done|simpl; lia].
  - intros q v events. apply run_keeps.
Qed.

End Concurrent.

(** ** Messages for an id that is not registered *)

Section Unknown.
Import CircularPayAgent Protocol.

(** A confirm or cancel message whose key is not registered and names
    nothing inherited that throws is ignored: the agent is exactly as before
    and nothing is sent. *)
Lemma unregistered_id_is_ignored JSON_parse conn text parsed key a :
  JSON_parse text = Some parsed →
  addressed parsed = Some key →
  confirmations a !! key = None →
  Object_prototype key = None ∨ Object_prototype key = Some (InhFunction CallReturns) →
  onMessage JSON_parse conn (WSString text) a = a.
Proof.
  intros Hparse Hkey Hnone Hproto. unfold onMessage. rewrite Hparse.
  unfold addressed in Hkey. unfold dispatch, answer_message.
  destruct (member parsed "type") as [ty|]; [|done].
  assert (Hanswer : ∀ accepted, answer accepted key a = Normal a).
  { intros accepted. unfold answer, get_confirmation. rewrite Hnone.
    destruct Hproto as [-> | ->]; by rewrite delete_absent. }
  destruct (classify ty); try done;
    (destruct (member parsed "confirmationId") as [v|]; [|done];
     rewrite Hkey; by rewrite Hanswer).
Qed.

(** An inherited key that is not callable, or that throws when called, is
    answered with the parse error instead; nothing else changes. *)
Lemma throwing_id_is_answered JSON_parse conn text parsed key a :
  JSON_parse text = Some parsed →
  addressed parsed = Some key →
  confirmations a !! key = None →
  Object_prototype key = Some InhObject
  ∨ Object_prototype key = Some (InhFunction CallThrows) →
  onMessage JSON_parse conn (WSString text) a = catch_parse conn a.
Proof.
  intros Hparse Hkey Hnone Hproto. unfold onMessage. rewrite Hparse.
  unfold addressed in Hkey. unfold dispatch, answer_message.
  destruct (member parsed "type") as [ty|]; [|done].
  assert (Hanswer : ∀ accepted, answer accepted key a = Abrupt a).
  { intros accepted. unfold answer, get_confirmation. rewrite Hnone.
    by destruct Hproto as [-> | ->]. }
  destruct (classify ty); try done;
    (destruct (member parsed "confirmationId") as [v|]; [|done];
     rewrite Hkey; by rewrite Hanswer).
Qed.

End Unknown.

(** ** The claims at concrete inputs *)

Section Concrete.
Import CircularPayAgent Protocol Scenario.

(** Confirm, then cancel, on the agent with one pending confirmation; the id
    is even drawn again before the cancel message arrives. *)
Lemma second_resolution_is_noop_witness :
  ∃ a1,
    resolution ByConfirm "3f2a9c1b" 0 one_pending = Normal a1
    ∧ promises a1 !! 0 = Some (Some true)
    ∧ (let s := run parse [Elapse 60000; PaymentRequired requirements uuid2] a1 in
       promises s !! 0 = Some (Some true)
       ∧ resolution ByCancel "3f2a9c1b" 0 s = Normal s)
    ∧ promises
        (run parse [PaymentRequired requirements uuid1';
                    Message 7 (WSString (id_message "cancel" "3f2a9c1b"))] a1) !! 0
      = Some (Some true).
Proof.
  apply (second_resolution_is_noop parse one_pending "3f2a9c1b" 0 ByConfirm ByCancel
           [Elapse 60000; PaymentRequired requirements uuid2]
           [PaymentRequired requirements uuid1';
            Message 7 (WSString (id_message "cancel" "3f2a9c1b"))]).
  - apply run_consistent, initial_consistent.
  - reflexivity.
  - intros e He. apply list_elem_of_In in He. simpl in He.
    destruct He as [<-|[<-|[]]]; reflexivity.
Defined.

(** C2 as stated fails when the id is drawn again after the first
    resolution.  The confirmation under [3f2a9c1b] is confirmed; a later
    payment request draws a UUID with the same first eight characters and is
    registered under the same id.  A cancel message for the id, a second
    resolution attempt for it, is then no no-op: it settles the later
    promise.  Nor is the timeout of the first confirmation, which removes the
    registration of the later one and leaves its promise pending. *)
Lemma redrawn_id_is_resolved_again :
  let a1 := onMessage parse 7 (WSString (id_message "confirm" "3f2a9c1b")) one_pending in
  let a2 := snd (onPaymentRequired requirements uuid1' a1) in
  String.substring 0 8 uuid1' = "3f2a9c1b"
  ∧ confirmations one_pending !! "3f2a9c1b" = Some 0
  ∧ promises one_pending = [None]
  ∧ resolution ByConfirm "3f2a9c1b" 0 one_pending = Normal a1
  ∧ promises a1 = [Some true]
  ∧ promises a2 = [Some true; None]
  ∧ confirmations a2 !! "3f2a9c1b" = Some 1
  ∧ (∃ s, resolution ByCancel "3f2a9c1b" 0 a2 = Normal s
          ∧ promises s = [Some true; Some false])
  ∧ (∃ s, resolution (ByTimeout 60000) "3f2a9c1b" 0 a2 = Normal s
          ∧ promises s = [Some true; None]
          ∧ confirmations s !! "3f2a9c1b" = None).
Proof.
  repeat (split; [vm_compute; reflexivity|]).
  split; eexists; (split; [reflexivity|]); vm_compute; repeat split.
Qed.

(** Two requests with different ids on an agent that has an older
    confirmation pending, the second request a second after the first.  When
    the first is confirmed, the second stays where it was; when the second is
    confirmed and a minute passes, the first has timed out. *)
Lemma distinct_ids_are_independent_witness :
  let s1 :=
    run parse [Elapse 1000] (snd (onPaymentRequired requirements uuid1 older_pending)) in
  let first_confirmed :=
    run parse [Message 7 (WSString (id_message "confirm" "3f2a9c1b")); Elapse 30000]
      (snd (onPaymentRequired requirements uuid2 s1)) in
  let second_confirmed :=
    run parse [Message 7 (WSString (id_message "confirm" "77e0d4a6")); Elapse 60000]
      (snd (onPaymentRequired requirements uuid2 s1)) in
  (promises first_confirmed !! 1 = Some (Some true)
   ∧ clock first_confirmed = 31500%N
   ∧ undisturbed 61500 "77e0d4a6" 2 first_confirmed)
  ∧ (promises second_confirmed !! 2 = Some (Some true)
     ∧ clock second_confirmed = 61500%N
     ∧ undisturbed 60500 "3f2a9c1b" 1 second_confirmed).
Proof.
  split.
  - destruct (distinct_ids_are_independent parse older_pending requirements uuid1
                requirements uuid2 [Elapse 1000]
                [Message 7 (WSString (id_message "confirm" "3f2a9c1b")); Elapse 30000])
      as (_ & _ & Hsecond & _).
    + apply run_consistent, initial_consistent.
    + vm_compute. discriminate.
    + split; [reflexivity|]. split; [reflexivity|]. apply Hsecond.
      * intros t Ht. apply list_elem_of_In in Ht. vm_compute in Ht.
        destruct Ht as [<-|[<-|[]]]; vm_compute; discriminate.
      * intros e He. apply list_elem_of_In in He. simpl in He.
        destruct He as [<-|[<-|[]]]; reflexivity.
  - destruct (distinct_ids_are_independent parse older_pending requirements uuid1
                requirements uuid2 [Elapse 1000]
                [Message 7 (WSString (id_message "confirm" "77e0d4a6")); Elapse 60000])
      as (_ & Hfirst & _ & _).
    + apply run_consistent, initial_consistent.
    + vm_compute. discriminate.
    + split; [reflexivity|]. split; [reflexivity|]. apply Hfirst.
      * intros t Ht. apply list_elem_of_In in Ht. vm_compute in Ht.
        destruct Ht as [<-|[]]; vm_compute; discriminate.
      * intros e He. apply list_elem_of_In in He. simpl in He.
        destruct He as [<-|[<-|[<-|[]]]]; reflexivity.
Defined.

(** Why C5, as amended, asks that no armed timer carries the id.  A request
    draws [77e0d4a6] and is confirmed; 59 seconds later two requests draw the
    different ids [3f2a9c1b] and [77e0d4a6].  A second later the timer of the
    confirmed request runs, finds its id registered and removes it: the third
    confirmation is no longer registered, and when its own timer runs it
    finds nothing, so its promise stays pending. *)
Lemma stale_timer_unregisters_a_later_request :
  let s :=
    run parse [PaymentRequired requirements uuid2;
               Message 7 (WSString (id_message "confirm" "77e0d4a6"));
               Elapse 59000;
               PaymentRequired requirements uuid1;
               PaymentRequired requirements uuid2';
               Elapse 1000] initial in
  String.substring 0 8 uuid2' = String.substring 0 8 uuid2
  ∧ clock s = 60000%N
  ∧ promises s = [Some true; None; None]
  ∧ confirmations s !! "3f2a9c1b" = Some 1
  ∧ confirmations s !! "77e0d4a6" = None
  ∧ promises (run parse [Elapse 600000] s) = [Some true; Some false; None]
  ∧ timers (run parse [Elapse 600000] s) = [].
Proof. vm_compute. repeat split. Qed.

(** C5 as stated fails when two UUIDs share their first eight characters:
    the two ids are the same, the second request takes the first one's place
    in the table, and the timeout of the first, a minute after it was made,
    removes the registration of the second, which is still pending; a confirm
    message for the id then reaches neither. *)
Lemma colliding_ids_interfere :
  String.substring 0 8 uuid1 = String.substring 0 8 uuid1'
  ∧ (let a2 := run parse colliding initial in
     promises a2 = [None; None] ∧ confirmations a2 !! "3f2a9c1b" = Some 1)
  ∧ (let s := run parse (colliding ++ [Elapse 59000]) initial in
     clock s = 60000%N ∧ promises s = [Some false; None]
     ∧ confirmations s !! "3f2a9c1b" = None
     ∧ promises
         (onMessage parse 7 (WSString (id_message "confirm" "3f2a9c1b")) s)
       = [Some false; None]).
Proof. vm_compute. repeat split. Qed.

(** A third request on the agent with two pending confirmations, left alone
    for a minute while another id is confirmed. *)
Lemma timeout_settles_false_witness :
  let final :=
    run parse [Elapse 30000; Message 7 (WSString (id_message "confirm" "77e0d4a6"));
               Elapse 30000]
      (snd (onPaymentRequired requirements uuid3 two_pending)) in
  clock two_pending = 1000%N ∧ clock final = 61000%N
  ∧ promises final !! 2 = Some (Some false)
  ∧ confirmations final !! "a0b1c2d3" = None
  ∧ ∀ t, t ∈ timers final → timer_id t ≠ "a0b1c2d3".
Proof.
  destruct (timeout_settles_false parse two_pending requirements uuid3
              [Elapse 30000; Message 7 (WSString (id_message "confirm" "77e0d4a6"));
               Elapse 30000])
    as (_ & _ & Hlate & _).
  - apply run_consistent, initial_consistent.
  - intros t Ht. apply list_elem_of_In in Ht. vm_compute in Ht.
    destruct Ht as [<-|[<-|[]]]; vm_compute; discriminate.
  - intros e He. apply list_elem_of_In in He. simpl in He.
    destruct He as [<-|[<-|[<-|[]]]]; reflexivity.
  - split; [reflexivity|]. split; [reflexivity|]. apply Hlate. vm_compute. discriminate.
Defined.

(** C3 as stated fails when two UUIDs share their first eight characters.
    The second confirmation is made at 1000 ms; at 60000 ms the timer of the
    first finds the id registered, removes it and settles its own promise; at
    61000 ms the timer of the second finds nothing and does nothing.  Ten
    minutes later the second promise is still pending, with no timer armed
    and nothing registered. *)
Lemma colliding_timeout_never_settles :
  let s := run parse (colliding ++ [Elapse 59000; Elapse 1000; Elapse 600000]) initial in
  String.substring 0 8 uuid1' = String.substring 0 8 uuid1
  ∧ clock s = 661000%N
  ∧ promises s = [Some false; None]
  ∧ timers s = []
  ∧ confirmations s = ∅.
Proof. vm_compute. repeat split. Qed.

(** C4 at the message [{"type":"confirm","confirmationId":"__proto__"}]: the
    id is not registered, and the sender is answered with an error. *)
Lemma proto_id_is_answered_with_an_error :
  let a' := onMessage parse 7 (WSString (id_message "confirm" "__proto__")) one_pending in
  confirmations one_pending !! "__proto__" = None
  ∧ replies (since one_pending a') = [(7, MsgError "Failed to parse message")]
  ∧ quiet a' = quiet one_pending.
Proof. vm_compute. repeat split. Qed.

End Concrete.

(** ** Replies *)

Section Replies.
Import CircularPayAgent Protocol.

Lemma resolve_awaiting p v a : awaiting (resolve p v a) = awaiting a.
Proof. unfold resolve. by destruct (promises a !! p) as [[|]|]. Qed.

Lemma fire_awaiting ts a :
  awaiting (foldl (λ s t, timerCallback t s) a ts) = awaiting a.
Proof.
  revert a. induction ts as [|t ts IH]; intros a; simpl; [done|].
  rewrite IH. unfold timerCallback.
  destruct (get_confirmation (timer_id t) a); try done; by rewrite resolve_awaiting.
Qed.

(** [onMessage] takes no suspended call off the list. *)
Lemma dispatch_awaiting conn parsed a k w :
  awaiting a !! k = Some w → awaiting (state_of (dispatch conn parsed a)) !! k = Some w.
Proof.
  intros Hk. unfold dispatch, answer_message, answer.
  destruct (member parsed "type") as [ty|]; [|done].
  destruct (classify ty); try done;
    try (destruct (x402Client a); simpl; [by apply lookup_app_l_Some|done]);
    (destruct (member parsed "confirmationId") as [v|]; [|done];
     destruct (to_property_key v) as [key|]; [|done];
     destruct (get_confirmation key a) as [q|[[]|]|]; simpl; try done;
     by rewrite resolve_awaiting).
Qed.

(** A suspended call stays suspended until its own promise settles. *)
Lemma step_awaiting JSON_parse e a k w :
  settles k e = false →
  awaiting a !! k = Some w → awaiting (step JSON_parse e a) !! k = Some w.
Proof.
  intros He Hk.
  destruct e as [env account connected wrapped|conn m|reqs uuid|ms|call o|call o]; simpl.
  - start_cases account connected wrapped.
  - unfold onMessage. destruct m as [text|]; [|done].
    destruct (JSON_parse text) as [parsed|]; [|done].
    pose proof (dispatch_awaiting conn parsed a k w Hk).
    by destruct (dispatch conn parsed a).
  - done.
  - unfold elapse. by rewrite fire_awaiting.
  - simpl in He. apply Nat.eqb_neq in He. unfold take_awaited.
    destruct (awaiting a !! call) as [[[conn tool|conn]|]|]; try done.
    destruct o; simpl; by rewrite list_lookup_insert_ne.
  - simpl in He. apply Nat.eqb_neq in He. unfold take_awaited.
    destruct (awaiting a !! call) as [[[conn tool|conn]|]|]; try done.
    destruct o; simpl; by rewrite list_lookup_insert_ne.
Qed.

Lemma run_awaiting JSON_parse events a k w :
  (∀ e, e ∈ events → settles k e = false) →
  awaiting a !! k = Some w → awaiting (run JSON_parse events a) !! k = Some w.
Proof.
  revert a. induction events as [|e events IH]; intros a Hev Hk; [done|].
  apply IH.
  - intros e' He'. apply Hev. by right.
  - apply step_awaiting; [|done]. apply Hev. by left.
Qed.

Lemma since_emit a e : since a (emit e a) = [e].
Proof. unfold since. simpl. by rewrite drop_app_length. Qed.

(** A call whose promise has settled has nothing more to run. *)
Lemma settled_call_is_done JSON_parse e s k :
  awaiting s !! k = Some None → settles k e = true → step JSON_parse e s = s.
Proof.
  intros Hk He.
  destruct e as [| | | |call o|call o]; try done;
    simpl in He; apply Nat.eqb_eq in He as ->; simpl;
    unfold take_awaited; by rewrite Hk.
Qed.

(** The continuation of a suspended [call_tool] sends one reply. *)
Lemma callTool_replies_once JSON_parse s k conn tool outcome :
  awaiting s !! k = Some (Some (AwaitCallTool conn tool)) →
  let s' := step JSON_parse (CallToolSettles k outcome) s in
  replies (since s s')
  = [(conn,
      match outcome with
      | Fulfilled result =>
          MsgTool (if isError result then "tool_error" else "tool_result") tool
            (first_text result) (clock s)
      | Rejected error => MsgError (message_or_unknown error)
      end)]
  ∧ awaiting s' !! k = Some None.
Proof.
  intros Hk. simpl. unfold take_awaited. rewrite Hk.
  assert (Hlt : k < length (awaiting s)) by (by eapply lookup_lt_Some).
  split.
  - destruct outcome; unfold afterCallTool, send, since; simpl;
      by rewrite drop_app_length.
  - destruct outcome; simpl; by apply list_lookup_insert_eq.
Qed.

(** The continuation of a suspended [list_tools] sends one reply. *)
Lemma listTools_replies_once JSON_parse s k conn outcome :
  awaiting s !! k = Some (Some (AwaitListTools conn)) →
  let s' := step JSON_parse (ListToolsSettles k outcome) s in
  replies (since s s')
  = [(conn,
      match outcome with
      | Fulfilled tools => MsgToolsList tools
      | Rejected error => MsgError (message_or_unknown error)
      end)]
  ∧ awaiting s' !! k = Some None.
Proof.
  intros Hk. simpl. unfold take_awaited. rewrite Hk.
  assert (Hlt : k < length (awaiting s)) by (by eapply lookup_lt_Some).
  split.
  - destruct outcome; unfold afterListTools, send, since; simpl;
      by rewrite drop_app_length.
  - destruct outcome; simpl; by apply list_lookup_insert_eq.
Qed.

(** Answering a confirm or cancel message sends nothing and suspends
    nothing. *)
Lemma answer_message_quiet accepted parsed a :
  effects (state_of (answer_message accepted parsed a)) = effects a
  ∧ awaiting (state_of (answer_message accepted parsed a)) = awaiting a.
Proof.
  unfold answer_message, answer.
  destruct (member parsed "confirmationId") as [v|]; [|done].
  destruct (to_property_key v) as [key|]; [|done].
  destruct (get_confirmation key a) as [q|[[]|]|]; simpl; try done.
  by rewrite resolve_effects, resolve_awaiting.
Qed.

(** C6, as amended: what a text message is answered with.  A text that does
    not parse, or that parses to [null], gets one parse error.  A
    [call_tool] or [list_tools] message gets one error at once while the
    agent has no client, and that is all: no call is left suspended, and every
    later sequence of events is handled as it would have been without the
    message, so nothing more is ever sent for it.  With a client the message
    gets nothing at once and leaves exactly one more suspended call; whatever
    happens before that call settles, exactly one reply is sent when it does
    ([tool_result], [tool_error], [tools_list] or [error]) and none after.
    A [confirm] or [cancel] message that is handled without a throw gets no
    reply, and neither does a message of any other type, which is logged;
    neither leaves a suspended call. *)
Theorem replies_to_requests JSON_parse conn text a :
  let a' := onMessage JSON_parse conn (WSString text) a in
  let sent := replies (since a a') in
  let call := length (awaiting a) in
  let answered_at_once (reply : Outbound) :=
    sent = [(conn, reply)]
    ∧ awaiting a' = awaiting a
    ∧ ∀ events, since a' (run JSON_parse events a') = since a (run JSON_parse events a) in
  match JSON_parse text with
  | None => answered_at_once (MsgError "Failed to parse message")
  | Some parsed =>
      match member parsed "type" with
      | None => answered_at_once (MsgError "Failed to parse message")
      | Some ty =>
          match classify ty with
          | TConfirm | TCancel =>
              ∀ s, dispatch conn parsed a = Normal s →
                   sent = [] ∧ awaiting a' = awaiting a
          | TUnknown =>
              sent = [] ∧ since a a' = [ConsoleLog "Unknown message type:"]
              ∧ awaiting a' = awaiting a
          | TCallTool =>
              if x402Client a then
                sent = []
                ∧ awaiting a'
                  = (awaiting a
                     ++ [Some (AwaitCallTool conn (default None (member parsed "tool")))])%list
                ∧ ∀ between outcome,
                    (∀ e, e ∈ between → settles call e = false) →
                    let s := run JSON_parse between a' in
                    let s' := step JSON_parse (CallToolSettles call outcome) s in
                    replies (since s s')
                    = [(conn,
                        match outcome with
                        | Fulfilled result =>
                            MsgTool (if isError result then "tool_error" else "tool_result")
                              (default None (member parsed "tool"))
                              (first_text result) (clock s)
                        | Rejected error => MsgError (message_or_unknown error)
                        end)]
                    ∧ ∀ e, settles call e = true → step JSON_parse e s' = s'
              else
                answered_at_once
                  (MsgError "Agent not initialized - missing CLIENT_WALLET_PK")
          | TListTools =>
              if x402Client a then
                sent = []
                ∧ awaiting a' = (awaiting a ++ [Some (AwaitListTools conn)])%list
                ∧ ∀ between outcome,
                    (∀ e, e ∈ between → settles call e = false) →
                    let s := run JSON_parse between a' in
                    let s' := step JSON_parse (ListToolsSettles call outcome) s in
                    replies (since s s')
                    = [(conn,
                        match outcome with
                        | Fulfilled tools => MsgToolsList tools
                        | Rejected error => MsgError (message_or_unknown error)
                        end)]
                    ∧ ∀ e, settles call e = true → step JSON_parse e s' = s'
              else answered_at_once (MsgError "Agent not initialized")
          end
      end
  end.
Proof.
  intros a' sent call answered_at_once.
  subst a' sent call answered_at_once. unfold onMessage. cbv beta.
  assert (Hcatch : ∀ s, effects s = effects a → quiet s = quiet a →
            replies (since a (catch_parse conn s))
            = [(conn, MsgError "Failed to parse message")]
            ∧ awaiting (catch_parse conn s) = awaiting a
            ∧ ∀ events,
                since (catch_parse conn s) (run JSON_parse events (catch_parse conn s))
                = since a (run JSON_parse events a)).
  { intros s Hs Hq. split; [|split].
    - unfold since, catch_parse, send, emit. simpl.
      by rewrite Hs, <- app_assoc, drop_app_length.
    - simpl. by injection Hq.
    - intros events. by apply run_same_core. }
  assert (Hsend : ∀ reply,
            replies (since a (send conn reply a)) = [(conn, reply)]
            ∧ awaiting (send conn reply a) = awaiting a
            ∧ ∀ events,
                since (send conn reply a) (run JSON_parse events (send conn reply a))
                = since a (run JSON_parse events a)).
  { intros reply. split; [unfold send; by rewrite since_emit|].
    split; [done|]. intros events. by apply run_same_core. }
  destruct (JSON_parse text) as [parsed|]; [|by apply Hcatch].
  unfold dispatch.
  destruct (member parsed "type") as [ty|]; [|by apply Hcatch].
  destruct (classify ty).
  - intros s Hs. rewrite Hs.
    destruct (answer_message_quiet true parsed a) as [He Ha].
    rewrite Hs in He, Ha. simpl in *. unfold since. by rewrite He, drop_all.
  - intros s Hs. rewrite Hs.
    destruct (answer_message_quiet false parsed a) as [He Ha].
    rewrite Hs in He, Ha. simpl in *. unfold since. by rewrite He, drop_all.
  - destruct (x402Client a); [|by apply Hsend].
    split; [unfold since, suspend; simpl; by rewrite drop_app_length|].
    split; [done|].
    intros between outcome Hbetween.
    set (s := run JSON_parse between _).
    assert (Hs : awaiting s !! length (awaiting a)
                 = Some (Some (AwaitCallTool conn (default None (member parsed "tool"))))).
    { apply run_awaiting; [done|]. by apply list_lookup_middle. }
    destruct (callTool_replies_once JSON_parse s _ _ _ outcome Hs) as [Hreply Hdone].
    split; [done|]. intros e He. by eapply settled_call_is_done.
  - destruct (x402Client a); [|by apply Hsend].
    split; [unfold since, suspend; simpl; by rewrite drop_app_length|].
    split; [done|].
    intros between outcome Hbetween.
    set (s := run JSON_parse between _).
    assert (Hs : awaiting s !! length (awaiting a) = Some (Some (AwaitListTools conn))).
    { apply run_awaiting; [done|]. by apply list_lookup_middle. }
    destruct (listTools_replies_once JSON_parse s _ _ outcome Hs) as [Hreply Hdone].
    split; [done|]. intros e He. by eapply settled_call_is_done.
  - split; [|split]; [by rewrite since_emit| |done].
    unfold since, emit. simpl. by rewrite drop_app_length.
Qed.

End Replies.

(** ** The backend client, the registry and the gate *)

Section Server.
Import CircularClient CircularMCP Worker Protocol.

Variable fetch : list Request → Request → Settled Response.
Variable engine_message : EngineError → string.
Variable JSON_stringify : JsValue → string.

(** C7: whatever goes wrong in the backend call (no answer, an answer that
    is not a success, a body that is not JSON, a body without [exists]),
    [checkWallet] returns [false], and the [check_wallet] tool registered by
    [init] answers with the text of [{exists: false, address}] and without
    [isError]. *)
Theorem checkWallet_degrades_to_false env address w :
  backend_error
    (fetch (requests w)
       (GET (CIRCULAR_RPC_URL env +:+ "/wallet/" +:+ address +:+ "/exists"))) →
  fst (checkWallet fetch (CIRCULAR_RPC_URL env) address w) = JBool false
  ∧ ∃ d handler,
      lookup "check_wallet" (init fetch engine_message JSON_stringify env) = Some d
      ∧ tool_handler d (ArgsAddress address) = Some handler
      ∧ fst (handler w)
        = mkResult
            [mkContent "text"
               (Some (JSON_stringify
                        (JObj [("exists", JBool false); ("address", JStr address)])))]
            false.
Proof.
  intros Herr.
  assert (Hfalse : fst (checkWallet fetch (CIRCULAR_RPC_URL env) address w) = JBool false).
  { unfold checkWallet, do_fetch.
    inversion Herr as [e He|r Hok He|r e Hok Hjson He|r data Hok Hjson Hmem He]; simpl.
    - done.
    - by rewrite Hok.
    - by rewrite Hok, Hjson.
    - rewrite Hok, Hjson. simpl. unfold exists_or_false.
      by destruct (member data "exists") as [[v|]|]. }
  split; [done|].
  eexists _, _. split; [reflexivity|]. split; [reflexivity|].
  simpl. destruct (checkWallet fetch (CIRCULAR_RPC_URL env) address w) as [found w1].
  simpl in *. by subst found.
Qed.

(** Every handler that [init] registers starts by issuing one request to the
    backend: a world without a new request is a world where no handler ran. *)
Lemma handlers_issue_a_request env d args handler w :
  d ∈ tools (init fetch engine_message JSON_stringify env) →
  tool_handler d args = Some handler →
  length (requests (snd (handler w))) = S (length (requests w)).
Proof.
  intros Hd Hh. apply list_elem_of_In in Hd. simpl in Hd.
  assert (Hfj : ∀ r failure w0,
            requests (snd (fetch_json fetch r failure w0)) = (requests w0 ++ [r])%list).
  { intros r failure w0. unfold fetch_json, do_fetch. by destruct (fetch _ _). }
  destruct Hd as [<-|[<-|[<-|[<-|[<-|[<-|[]]]]]]]; simpl in Hh;
    destruct args; try done; injection Hh as <-.
  1: { unfold checkWallet, do_fetch. simpl.
       destruct (fetch _ _) as [r|e]; simpl; [|by rewrite length_app; simpl; lia].
       destruct (ok r); simpl; [|by rewrite length_app; simpl; lia].
       destruct (json r) as [data|e]; simpl; [|by rewrite length_app; simpl; lia].
       destruct (exists_or_false data); simpl; rewrite length_app; simpl; lia. }
  all: unfold printed, getWallet, getBalance, sendTransaction, getAnalytics,
         getTransactionHistory;
       match goal with
       | |- context [fetch_json fetch ?r ?f ?w0] => specialize (Hfj r f w0)
       end;
       destruct (fetch_json _ _ _ _) as [o w1]; simpl in *;
       rewrite Hfj, length_app; simpl; lia.
Qed.

Lemma lookup_registered name server d :
  lookup name server = Some d → d ∈ tools server ∧ tool_name d = name.
Proof.
  unfold lookup. intros [Hin Hname]%List.find_some.
  split; [by apply list_elem_of_In|by apply String.eqb_eq].
Qed.

(** C1: through the gate, a tool registered by [init] with a price and
    invoked without a payment proof, or with one the facilitator refuses, is
    answered with [payment_required] carrying the requirement for its
    declared price, and the world is unchanged: no handler ran.  A tool
    registered without a price has its handler run at once, whatever the
    proof, and the handler's result is returned.  [check_wallet] is such a
    free tool and [get_wallet] a priced one. *)
Theorem gate_runs_handler_only_when_paid verify env name d args paymentProof w :
  let server := init fetch engine_message JSON_stringify env in
  lookup name server = Some d →
  ∃ config,
    x402 server = Some config
    ∧ match tool_price d with
      | Some price =>
          unpaid verify (requirement config price) paymentProof →
          invoke verify config d args paymentProof w
          = (PaymentRequiredOutcome [requirement config price], w)
      | None =>
          ∀ handler, tool_handler d args = Some handler →
            invoke verify config d args paymentProof w
            = (HandlerResult (fst (handler w)), snd (handler w))
            ∧ length (requests (snd (handler w))) = S (length (requests w))
      end
    ∧ tool_price <$> lookup "check_wallet" server = Some None
    ∧ tool_price <$> lookup "get_wallet" server = Some (Some (1 # 1000)).
Proof.
  intros server [Hd _]%lookup_registered.
  eexists. split; [reflexivity|]. split; [|by split].
  unfold invoke. destruct (tool_price d) as [price|].
  - intros Hunpaid. destruct paymentProof as [proof|]; [|done].
    simpl in Hunpaid. by rewrite Hunpaid.
  - intros handler Hh. split.
    + unfold run_handler. rewrite Hh. by destruct (handler w).
    + by eapply handlers_issue_a_request.
Qed.

(** C9: the [/pricing] listing and the registry built by [init] name the
    same tools, each once; a listed price is [free] exactly when the tool
    was registered without a price, and otherwise it states the amount the
    tool was registered with. *)
Theorem pricing_agrees_with_registry env :
  let listing := pricing_tools (pricing env) in
  let server := init fetch engine_message JSON_stringify env in
  list_to_set (map fst listing) =@{gset string} list_to_set (map tool_name (tools server))
  ∧ NoDup (map fst listing)
  ∧ NoDup (map tool_name (tools server))
  ∧ Forall
      (λ listed,
         ∃ d, lookup (fst listed) server = Some d
              ∧ (price (snd listed) = "free" ↔ tool_price d = None)
              ∧ ∀ q, tool_price d = Some q →
                     ∃ q', listed_amount (price (snd listed)) = Some q' ∧ (q' == q)%Q)
      listing.
Proof.
  intros listing server. split; [|split; [|split]].
  - subst listing server. simpl. compute_done.
  - subst listing. simpl. compute_done.
  - subst server. simpl. compute_done.
  - subst listing server.
    repeat (apply Forall_cons; split;
            [eexists; split; [reflexivity|]; split;
             [split; intros; first [done|discriminate]
             |intros q [= <-]; eexists; split; reflexivity]|]).
    apply Forall_nil_2.
Qed.

(** The [/docs] response sorts the same tools by whether they have a price. *)
Lemma docs_agree_with_registry env :
  let registered := tools (init fetch engine_message JSON_stringify env) in
  let free d := match tool_price d with None => true | Some _ => false end in
  docs_free = map tool_name (List.filter free registered)
  ∧ list_to_set docs_paid
    =@{gset string} list_to_set (map tool_name (List.filter (λ d, negb (free d)) registered)).
Proof. split; [reflexivity|]. simpl. compute_done. Qed.

End Server.

Section ConcreteServer.
Import CircularPayAgent CircularClient CircularMCP Worker Protocol Scenario.

(** A backend that answers 404 for every wallet. *)
Lemma checkWallet_degrades_to_false_witness :
  fst (checkWallet not_found (CIRCULAR_RPC_URL env) "0xabc" (mkWorld [] [])) = JBool false
  ∧ ∃ d handler,
      lookup "check_wallet" (init not_found engine_message stringify env) = Some d
      ∧ tool_handler d (ArgsAddress "0xabc") = Some handler
      ∧ fst (handler (mkWorld [] []))
        = mkResult
            [mkContent "text"
               (Some (stringify (JObj [("exists", JBool false); ("address", JStr "0xabc")])))]
            false.
Proof.
  apply (checkWallet_degrades_to_false not_found engine_message stringify env "0xabc"
           (mkWorld [] [])).
  apply http_failure. reflexivity.
Defined.

(** [get_wallet] invoked with a proof the facilitator refuses. *)
Lemma gate_runs_handler_only_when_paid_witness :
  let server := init not_found engine_message stringify env in
  ∃ d,
    lookup "get_wallet" server = Some d
    ∧ invoke verify (mkConfig "base-sepolia" "0xRecipient" "https://facilitator.example")
        d (ArgsAddress "0xabc") (Some "forged") (mkWorld [] [])
      = (PaymentRequiredOutcome requirements, mkWorld [] []).
Proof.
  intros server.
  set (d := mkTool "get_wallet" "Get detailed wallet information from Circular Protocol"
              (Some (1 # 1000))
              (get_wallet_handler not_found engine_message stringify (CIRCULAR_RPC_URL env))).
  destruct (gate_runs_handler_only_when_paid not_found engine_message stringify verify env
              "get_wallet" d (ArgsAddress "0xabc") (Some "forged") (mkWorld [] []) eq_refl)
    as (config & Hconfig & Hgate & _).
  simpl in Hconfig. injection Hconfig as <-.
  exists d. split; [reflexivity|]. apply Hgate. reflexivity.
Defined.

(** C6 as stated fails on a [confirm] message: its type is recognised, it
    is acted upon (the pending promise settles to true), yet nothing is sent
    in reply and no call is left suspended that could reply later. *)
Lemma confirm_is_not_answered :
  let text := id_message "confirm" "3f2a9c1b" in
  let a' := onMessage parse 7 (WSString text) one_pending in
  (∃ parsed ty, parse text = Some parsed ∧ member parsed "type" = Some ty
                ∧ classify ty = TConfirm)
  ∧ promises one_pending = [None]
  ∧ promises a' = [Some true]
  ∧ replies (since one_pending a') = []
  ∧ awaiting a' = awaiting one_pending.
Proof.
  split; [|by vm_compute].
  eexists _, _. split; [by vm_compute|]. split; reflexivity.
Qed.

(** A [call_tool] message on a started agent: nothing at once, one
    [tool_result] when the call settles, a confirm message in between. *)
Lemma replies_to_requests_witness :
  let a' := onMessage parse 7 (WSString (type_message "call_tool")) one_pending in
  replies (since one_pending a') = []
  ∧ (let s := run parse [Message 7 (WSString (id_message "confirm" "3f2a9c1b"))] a' in
     replies
       (since s
          (step parse
             (CallToolSettles 0 (Fulfilled (mkResult [mkContent "text" (Some "ok")] false)))
             s))
     = [(7, MsgTool "tool_result" None "ok" 0)]).
Proof.
  pose proof (replies_to_requests parse 7 (type_message "call_tool") one_pending) as H.
  hnf in H. destruct H as (Hnow & _ & Hlater). split; [exact Hnow|].
  destruct (Hlater [Message 7 (WSString (id_message "confirm" "3f2a9c1b"))]
              (Fulfilled (mkResult [mkContent "text" (Some "ok")] false))) as [Hreply _].
  - intros e He. apply list_elem_of_In in He. simpl in He.
    destruct He as [<-|[]]. reflexivity.
  - exact Hreply.
Defined.

End ConcreteServer.

(** * Further properties of the agent *)

Section Client.
Import CircularPayAgent Protocol.

Lemma resolve_client p v a : x402Client (resolve p v a) = x402Client a.
Proof. unfold resolve. by destruct (promises a !! p) as [[|]|]. Qed.

Lemma fire_client ts a :
  x402Client (foldl (λ s t, timerCallback t s) a ts) = x402Client a.
Proof.
  revert a. induction ts as [|t ts IH]; intros a; simpl; [done|].
  rewrite IH. unfold timerCallback.
  destruct (get_confirmation (timer_id t) a); try done; by rewrite resolve_client.
Qed.

Lemma dispatch_client conn parsed a :
  x402Client (state_of (dispatch conn parsed a)) = x402Client a.
Proof.
  unfold dispatch, answer_message, answer.
  destruct (member parsed "type") as [ty|]; [|done].
  destruct (classify ty); try done;
    try (by destruct (x402Client a) eqn:Hclient);
    (destruct (member parsed "confirmationId") as [v|]; [|done];
     destruct (to_property_key v) as [key|]; [|done];
     destruct (get_confirmation key a) as [q|[[]|]|]; simpl; try done;
     by rewrite resolve_client).
Qed.

Lemma step_client JSON_parse e a :
  x402Client (step JSON_parse e a) = x402Client a || successful_start e.
Proof.
  destruct e as [env account connected wrapped|conn m|reqs uuid|ms|call o|call o]; simpl;
    rewrite ?orb_false_r.
  - unfold onStart. destruct (CLIENT_WALLET_PK env) as [pk|]; simpl.
    + destruct (String.eqb pk EmptyString), account as [address|], connected, wrapped;
        simpl; by rewrite ?orb_false_r, ?orb_true_r.
    + by destruct account as [address|], connected, wrapped; rewrite ?orb_false_r.
  - unfold onMessage. destruct m as [text|]; [|done].
    destruct (JSON_parse text) as [parsed|]; [|done].
    pose proof (dispatch_client conn parsed a).
    by destruct (dispatch conn parsed a).
  - done.
  - unfold elapse. by rewrite fire_client.
  - unfold take_awaited.
    destruct (awaiting a !! call) as [[[conn tool|conn]|]|]; try done. by destruct o.
  - unfold take_awaited.
    destruct (awaiting a !! call) as [[[conn tool|conn]|]|]; try done. by destruct o.
Qed.

(** X1: the agent has its x402 client exactly when one of the [onStart]
    calls so far ran to its end: it found a key that is set and not empty,
    made the account, connected, and got the connection's client wrapped by
    [withX402Client]; a throw at any of these leaves the client as it was.
    Nothing else sets the client and nothing ever unsets it. *)
Theorem client_set_by_successful_start JSON_parse events a :
  x402Client (run JSON_parse events a)
  = x402Client a || existsb successful_start events.
Proof.
  revert a. induction events as [|e events IH]; intros a; simpl.
  - by rewrite orb_false_r.
  - change (run JSON_parse (e :: events) a)
      with (run JSON_parse events (step JSON_parse e a)).
    by rewrite IH, step_client, orb_assoc.
Qed.

(** X2: a [call_tool] message on an agent with a client does one thing at
    once: it calls the client's [callTool] with [parsed.tool] as the name and
    with arguments that are never falsy: [parsed.args] when that is truthy,
    and an empty object otherwise (missing, [null], [false], [0], the empty
    text). *)
Theorem call_tool_arguments_are_an_object JSON_parse conn text parsed ty a :
  JSON_parse text = Some parsed →
  member parsed "type" = Some ty →
  classify ty = TCallTool →
  x402Client a = true →
  ∃ args,
    since a (onMessage JSON_parse conn (WSString text) a)
    = [ClientCallTool (length (awaiting a)) (default None (member parsed "tool")) args]
    ∧ truthy args = true
    ∧ (member parsed "args" = Some (Some args)
       ∨ (args = JObj []
          ∧ ∀ v, member parsed "args" = Some (Some v) → truthy v = false)).
Proof.
  intros Hparse Hty Hclass Hclient.
  unfold onMessage, dispatch. rewrite Hparse, Hty, Hclass, Hclient.
  assert (Hmem : ∃ o, member parsed "args" = Some o).
  { destruct parsed; simpl in *; try done; by eexists. }
  destruct Hmem as [o Hmem]. rewrite Hmem. simpl.
  unfold since, suspend. simpl. rewrite drop_app_length.
  destruct o as [v|]; [destruct (truthy v) eqn:Hv|].
  - exists v. by eauto.
  - exists (JObj []). split; [done|]. split; [done|]. right. split; [done|].
    by intros v' [= <-].
  - exists (JObj []). split; [done|]. split; [done|]. right. by split.
Qed.

End Client.

Section Handshake.
Import CircularPayAgent Protocol.

(** X3: the id that [onPaymentRequired] broadcasts is the key that answers
    it.  Take a request whose id no armed timer carries and later events that
    do not concern the id; as long as the minute has not passed, a [confirm]
    message carrying the id settles the promise that [onPaymentRequired]
    returned to true, and a [cancel] message to false; the id is then no
    longer registered and nothing is sent in reply. *)
Theorem answer_in_time_settles_the_request
    JSON_parse a reqs uuid events conn text parsed ty accepted :
  consistent a →
  (∀ t, t ∈ timers a → timer_id t ≠ String.substring 0 8 uuid) →
  (∀ e, e ∈ events → concerns JSON_parse (String.substring 0 8 uuid) e = false) →
  let id := String.substring 0 8 uuid in
  let p := fst (onPaymentRequired reqs uuid a) in
  let waited := run JSON_parse events (snd (onPaymentRequired reqs uuid a)) in
  (clock waited < clock a + 60000)%N →
  JSON_parse text = Some parsed →
  member parsed "type" = Some ty →
  classify ty = (if accepted : bool then TConfirm else TCancel) →
  member parsed "confirmationId" = Some (Some (JStr id)) →
  let answered := onMessage JSON_parse conn (WSString text) waited in
  since a (snd (onPaymentRequired reqs uuid a))
  = [Broadcast (MsgPaymentRequired id reqs (clock a))]
  ∧ promises waited !! p = Some None
  ∧ promises answered !! p = Some (Some accepted)
  ∧ confirmations answered !! id = None
  ∧ since waited answered = [].
Proof.
  intros Hc Hfresh Hquiet id p waited Hclock Hparse Hty Hclass Hid answered.
  destruct (request_waits reqs uuid a Hc Hfresh) as [Hw Ha].
  destruct (run_waiting JSON_parse id p (clock a + 60000)%N events
              (snd (onPaymentRequired reqs uuid a)) Hquiet Hw Ha)
    as [((Hk & Hp & _) & _ & _)|(_ & _ & Hlate)].
  { simpl. lia. }
  2: { fold waited in Hlate. lia. }
  fold waited in Hk, Hp.
  split; [unfold since; simpl; by rewrite drop_app_length|]. split; [done|].
  assert (Hanswered : answered = resolve p accepted (delete_confirmation id waited)).
  { subst answered. unfold onMessage, dispatch, answer_message.
    rewrite Hparse, Hty, Hclass.
    destruct accepted; rewrite Hid; simpl; unfold answer, get_confirmation;
      rewrite Hk; by rewrite delete_resolve. }
  rewrite Hanswered. split; [by apply resolve_pending|]. split.
  - rewrite resolve_confirmations. simpl. apply lookup_delete_eq.
  - unfold since. rewrite resolve_effects. simpl. apply drop_all.
Qed.

(** X4: a [confirm] or [cancel] message without a [confirmationId] addresses
    the key [undefined], which is longer than any registered key: in every
    consistent state the message is ignored, with no reply and no change. *)
Theorem answer_without_id_is_ignored JSON_parse conn text parsed ty a :
  consistent a →
  JSON_parse text = Some parsed →
  member parsed "type" = Some ty →
  classify ty = TConfirm ∨ classify ty = TCancel →
  member parsed "confirmationId" = Some None →
  onMessage JSON_parse conn (WSString text) a = a.
Proof.
  intros Hc Hparse Hty Hclass Hid.
  apply (unregistered_id_is_ignored JSON_parse conn text parsed "undefined");
    try done.
  - unfold addressed. rewrite Hty, Hid. by destruct Hclass as [-> | ->].
  - destruct (confirmations a !! "undefined") as [p|] eqn:Hk; [|done].
    apply (consistent_key_length a _ p Hc) in Hk. simpl in Hk. lia.
  - by left.
Qed.

End Handshake.

Section Timers.
Import CircularPayAgent Protocol.

Lemma dispatch_confirmations conn parsed a k p :
  confirmations (state_of (dispatch conn parsed a)) !! k = Some p →
  confirmations a !! k = Some p.
Proof.
  unfold dispatch, answer_message, answer.
  destruct (member parsed "type") as [ty|]; [|done].
  destruct (classify ty); try done;
    try (by destruct (x402Client a) eqn:Hclient);
    (destruct (member parsed "confirmationId") as [v|]; [|done];
     destruct (to_property_key v) as [key|]; [|done];
     destruct (get_confirmation key a) as [q|[[]|]|]; simpl; try done;
     rewrite ?resolve_confirmations; simpl;
     by intros [_ ?]%lookup_delete_Some).
Qed.

(** A key that survives a batch of timers was registered before and is the
    key of none of them. *)
Lemma fire_survivor ts a k p :
  confirmations (foldl (λ s t, timerCallback t s) a ts) !! k = Some p →
  confirmations a !! k = Some p ∧ ∀ t, t ∈ ts → timer_id t ≠ k.
Proof.
  revert a. induction ts as [|t ts IH]; intros a Hk; simpl in *.
  { split; [done|]. by intros t ?%not_elem_of_nil. }
  apply IH in Hk as [Hk Hts].
  assert (confirmations a !! k = Some p ∧ timer_id t ≠ k) as [Ha Hne].
  { revert Hk. unfold timerCallback, get_confirmation.
    destruct (confirmations a !! timer_id t) as [q|] eqn:Ht.
    - rewrite resolve_confirmations. simpl. by intros [? ?]%lookup_delete_Some.
    - destruct (Object_prototype (timer_id t)).
      + rewrite resolve_confirmations. simpl. by intros [? ?]%lookup_delete_Some.
      + intros Hk. split; [done|]. intros Heq. by rewrite Heq, Hk in Ht. }
  split; [done|]. intros t' [->|Ht']%elem_of_cons; [done|by apply Hts].
Qed.

Lemma step_timely JSON_parse e a : timely a → timely (step JSON_parse e a).
Proof.
  intros Ht.
  destruct e as [env account connected wrapped|conn m|reqs uuid|ms|call o|call o]; simpl.
  - start_cases account connected wrapped.
  - unfold onMessage. destruct m as [text|]; [|done].
    destruct (JSON_parse text) as [parsed|]; [|done].
    pose proof (dispatch_timers conn parsed a) as Hts.
    pose proof (dispatch_clock conn parsed a) as Hc.
    unfold timely.
    destruct (dispatch conn parsed a) as [s|s]; simpl in *; by rewrite Hts, Hc.
  - unfold timely. simpl.
    intros t [Hin| ->%list_elem_of_singleton]%elem_of_app; [by apply Ht|]. simpl. lia.
  - unfold timely. rewrite elapse_clock. unfold elapse. rewrite fire_timers. simpl.
    intros t [Hin Hlate]%elem_of_filter_bool.
    apply negb_true_iff, N.leb_gt in Hlate. apply Ht in Hin. lia.
  - settle_cases a call o.
  - settle_cases a call o.
Qed.

Lemma step_watched JSON_parse e a : watched a → watched (step JSON_parse e a).
Proof.
  intros Hw.
  destruct e as [env account connected wrapped|conn m|reqs uuid|ms|call o|call o]; simpl.
  - start_cases account connected wrapped.
  - unfold onMessage. destruct m as [text|]; [|done].
    destruct (JSON_parse text) as [parsed|]; [|done].
    pose proof (dispatch_timers conn parsed a) as Hts.
    pose proof (dispatch_confirmations conn parsed a) as Hk.
    unfold watched.
    destruct (dispatch conn parsed a) as [s|s]; simpl in *; rewrite Hts;
      intros id p Hid; by eapply Hw, Hk.
  - unfold watched. simpl. intros id p [[<- _]|[_ Hid]]%lookup_insert_Some.
    + eexists. split; [apply elem_of_app; right; by left|done].
    + destruct (Hw id p Hid) as (t & Ht & Htid).
      exists t. split; [apply elem_of_app; by left|done].
  - unfold watched, elapse. rewrite fire_timers. simpl.
    intros id p [Hid Hfired]%fire_survivor. simpl in Hid.
    destruct (Hw id p Hid) as (t & Ht & Htid).
    exists t. split; [|done]. apply elem_of_filter_bool. split; [done|].
    destruct (timer_due t <=? clock a + ms)%N eqn:Hdue; [|done].
    exfalso. apply (Hfired t); [|done]. by apply elem_of_filter_bool.
  - settle_cases a call o.
  - settle_cases a call o.
Qed.

Lemma run_timely_watched JSON_parse events a :
  timely a → watched a →
  timely (run JSON_parse events a) ∧ watched (run JSON_parse events a).
Proof.
  revert a. induction events as [|e events IH]; intros a Ht Hw; [done|].
  apply IH; [by apply step_timely|by apply step_watched].
Qed.

(** X6: no timer is ever left behind or armed for longer than a minute: in
    every state the agent reaches, each armed timer is due later than the
    current time and at most 60000 ms later. *)
Theorem armed_timers_are_due_within_a_minute JSON_parse events t :
  t ∈ timers (run JSON_parse events initial) →
  (clock (run JSON_parse events initial) < timer_due t
   ≤ clock (run JSON_parse events initial) + 60000)%N.
Proof.
  destruct (run_timely_watched JSON_parse events initial) as [Ht _].
  - by intros t' ?%not_elem_of_nil.
  - intros id p Hid. simpl in Hid. by rewrite lookup_empty in Hid.
  - apply Ht.
Qed.

(** X7: the table of pending confirmations empties by itself: from any state
    the agent reaches, once a minute or more passes nothing is registered any
    longer and no timer is armed, whether or not the confirmations were
    answered. *)
Theorem table_is_empty_after_a_minute JSON_parse events ms :
  (60000 ≤ ms)%N →
  confirmations (elapse ms (run JSON_parse events initial)) = ∅
  ∧ timers (elapse ms (run JSON_parse events initial)) = [].
Proof.
  intros Hms.
  destruct (run_timely_watched JSON_parse events initial) as [Ht Hw].
  { by intros t' ?%not_elem_of_nil. }
  { intros id p Hid. simpl in Hid. by rewrite lookup_empty in Hid. }
  set (a := run JSON_parse events initial) in *.
  assert (Hall : ∀ t, t ∈ timers a → (timer_due t <=? clock a + ms)%N = true).
  { intros t Hin. apply Ht in Hin. apply N.leb_le. lia. }
  split.
  - apply map_empty. intros k.
    destruct (confirmations (elapse ms a) !! k) as [p|] eqn:Hk; [|done].
    unfold elapse in Hk. apply fire_survivor in Hk as [Hk Hfired]. simpl in Hk.
    destruct (Hw k p Hk) as (t & Hin & Htid).
    exfalso. apply (Hfired t); [|done]. apply elem_of_filter_bool. by auto.
  - unfold elapse. rewrite fire_timers. simpl. apply filter_none.
    intros t Hin. by rewrite (Hall t Hin).
Qed.

End Timers.

(** * Further properties of the client and the tools *)

Section Tools.
Import CircularClient CircularMCP Protocol.

Variable fetch : list Request → Request → Settled Response.
Variable engine_message : EngineError → string.
Variable JSON_stringify : JsValue → string.

Lemma prefix_append s t : String.prefix s (s +:+ t) = true.
Proof.
  induction s as [|c s IH]; simpl; [by destruct t|].
  by destruct (Ascii.ascii_dec c c).
Qed.

(** The tools of [init], one by one. *)
Lemma registered_cases env d :
  d ∈ tools (init fetch engine_message JSON_stringify env) →
  let rpcUrl := CIRCULAR_RPC_URL env in
  d = mkTool "check_wallet" "Check if a wallet exists on Circular Protocol" None
        (check_wallet_handler fetch JSON_stringify rpcUrl)
  ∨ d = mkTool "get_wallet" "Get detailed wallet information from Circular Protocol"
          (Some (1 # 1000)) (get_wallet_handler fetch engine_message JSON_stringify rpcUrl)
  ∨ d = mkTool "get_balance" "Get wallet balance on Circular Protocol"
          (Some (5 # 10000)) (get_balance_handler fetch engine_message rpcUrl)
  ∨ d = mkTool "send_transaction" "Send a transaction on Circular Protocol"
          (Some (1 # 100))
          (send_transaction_handler fetch engine_message JSON_stringify rpcUrl)
  ∨ d = mkTool "get_analytics" "Get analytics data from Circular Protocol"
          (Some (5 # 1000)) (get_analytics_handler fetch engine_message JSON_stringify rpcUrl)
  ∨ d = mkTool "get_transaction_history" "Get transaction history for a wallet"
          (Some (2 # 1000))
          (get_transaction_history_handler fetch engine_message JSON_stringify rpcUrl).
Proof.
  intros Hd rpcUrl. apply list_elem_of_In in Hd. simpl in Hd.
  destruct Hd as [<-|[<-|[<-|[<-|[<-|[<-|[]]]]]]]; auto 10.
Qed.

(** What [fetch_json] comes to when the backend answers every request with
    the same response. *)
Lemma fetch_json_answer r failure w resp :
  fetch (requests w) r = Fulfilled resp →
  fetch_json fetch r failure w
  = (if ok resp then json resp else Rejected (ThrownError (failure +:+ statusText resp)),
     mkWorld (requests w ++ [r])%list (console_errors w)).
Proof. intros Hf. unfold fetch_json, do_fetch. rewrite Hf. by destruct (ok resp). Qed.

Lemma fetch_json_rejected r failure w e :
  fetch (requests w) r = Rejected e →
  fetch_json fetch r failure w
  = (Rejected e, mkWorld (requests w ++ [r])%list (console_errors w)).
Proof. intros Hf. unfold fetch_json, do_fetch. by rewrite Hf. Qed.

(** X8: unlike [check_wallet], every priced tool surfaces a backend failure.
    When the backend answers without success, the tool's result has
    [isError] and the single text [Error: ] followed by the failure message
    of the client method the tool calls ([Failed to get wallet: ] for
    [get_wallet], [Failed to get balance: ] for [get_balance], [Failed to
    send transaction: ] for [send_transaction], [Failed to get analytics: ]
    for [get_analytics], [Failed to get transaction history: ] for
    [get_transaction_history]) and the response's status text; when the
    request itself fails, the text is [Error: ] and the error's message. *)
Theorem priced_tools_report_backend_failures env d args handler w :
  d ∈ tools (init fetch engine_message JSON_stringify env) →
  tool_price d ≠ None →
  tool_handler d args = Some handler →
  (∀ resp, (∀ r, fetch (requests w) r = Fulfilled resp) → ok resp = false →
     fst (handler w)
     = mkResult
         [mkContent "text"
            (Some ("Error: " +:+ own_failure (tool_name d) +:+ statusText resp))]
         true)
  ∧ (∀ e, (∀ r, fetch (requests w) r = Rejected e) →
       fst (handler w)
       = mkResult [mkContent "text" (Some ("Error: " +:+ message_or_unknown e))] true).
Proof.
  intros Hd Hprice Hh.
  apply registered_cases in Hd. simpl in Hd.
  destruct Hd as [->|[->|[->|[->|[->| ->]]]]]; [done|..];
    simpl in Hh; destruct args; try done; injection Hh as <-;
    (split;
     [intros resp Hf Hok;
      unfold printed, getWallet, getBalance, sendTransaction, getAnalytics,
        getTransactionHistory;
      rewrite (fetch_json_answer _ _ _ resp) by apply Hf; rewrite Hok; reflexivity
     |intros e Hf;
      unfold printed, getWallet, getBalance, sendTransaction, getAnalytics,
        getTransactionHistory;
      rewrite (fetch_json_rejected _ _ _ e) by apply Hf; reflexivity]).
Qed.

(** X9: every tool answers with exactly one content item, of type [text],
    whatever the backend does: the agent's [content[0]?.text] always finds
    it.  When the result has [isError], the text starts with [Error: ]. *)
Theorem tools_answer_with_one_text env d args handler w :
  d ∈ tools (init fetch engine_message JSON_stringify env) →
  tool_handler d args = Some handler →
  ∃ text,
    content (fst (handler w)) = [mkContent "text" (Some text)]
    ∧ CircularPayAgent.first_text (fst (handler w)) = text
    ∧ (isError (fst (handler w)) = true → String.prefix "Error: " text = true).
Proof.
  intros Hd Hh.
  assert (Hprinted : ∀ A (print : A → option string) (call : Call (Settled A)),
            ∃ text,
              content (fst (printed engine_message print call w))
              = [mkContent "text" (Some text)]
              ∧ CircularPayAgent.first_text (fst (printed engine_message print call w))
                = text
              ∧ (isError (fst (printed engine_message print call w)) = true →
                 String.prefix "Error: " text = true)).
  { intros A print call. unfold printed.
    destruct (call w) as [[v|e] w1]; [destruct (print v)|];
      eexists; (split; [reflexivity|]); (split; [reflexivity|]);
      first [by intros [=] | intros _; exact (prefix_append "Error: " _)]. }
  apply registered_cases in Hd. simpl in Hd.
  destruct Hd as [->|[->|[->|[->|[->| ->]]]]];
    simpl in Hh; destruct args; try done; injection Hh as <-;
    try apply Hprinted.
  destruct (checkWallet fetch (CIRCULAR_RPC_URL env) address w) as [found w1].
  eexists. split; [reflexivity|]. split; [reflexivity|]. by intros [=].
Qed.

(** X10: every tool asks the backend exactly once per call, at a URL under
    the configured RPC URL; [send_transaction] is the only one that posts and
    the only one that sends a body; only [check_wallet] ever writes to the
    console. *)
Theorem tools_issue_one_request env d args handler w :
  d ∈ tools (init fetch engine_message JSON_stringify env) →
  tool_handler d args = Some handler →
  ∃ r,
    requests (snd (handler w)) = (requests w ++ [r])%list
    ∧ String.prefix (CIRCULAR_RPC_URL env) (request_url r) = true
    ∧ request_method r = (if String.eqb (tool_name d) "send_transaction"
                          then "POST" else "GET")
    ∧ (is_Some (request_body r) ↔ tool_name d = "send_transaction")
    ∧ (tool_name d ≠ "check_wallet" → console_errors (snd (handler w)) = console_errors w).
Proof.
  intros Hd Hh.
  assert (Hfj : ∀ r failure,
            snd (fetch_json fetch r failure w)
            = mkWorld (requests w ++ [r])%list (console_errors w)).
  { intros r failure. unfold fetch_json, do_fetch. by destruct (fetch _ _). }
  assert (Hprinted : ∀ A (print : A → option string) (call : Call (Settled A)),
            snd (printed engine_message print call w) = snd (call w)).
  { intros A print call. unfold printed. by destruct (call w). }
  apply registered_cases in Hd. simpl in Hd.
  destruct Hd as [->|[->|[->|[->|[->| ->]]]]];
    simpl in Hh; destruct args; try done; injection Hh as <-.
  - exists (GET (CIRCULAR_RPC_URL env +:+ "/wallet/" +:+ address +:+ "/exists")).
    split; [|split; [apply prefix_append|]].
    + unfold checkWallet, do_fetch.
      destruct (fetch _ _) as [resp|e]; simpl; [|done].
      destruct (ok resp); simpl; [|done].
      destruct (json resp) as [data|e]; simpl; [|done].
      by destruct (exists_or_false data).
    + simpl. split; [done|]. split; [|done]. split; [by intros [? ?]|done].
  - eexists. rewrite Hprinted. unfold getWallet. rewrite Hfj. simpl.
    split; [done|]. split; [apply prefix_append|]. split; [done|].
    split; [|done]. split; [by intros [? ?]|done].
  - eexists. rewrite Hprinted. unfold getBalance.
    pose proof (Hfj (GET (CIRCULAR_RPC_URL env +:+ "/wallet/" +:+ address +:+ "/balance"))
                  "Failed to get balance: ") as Hw.
    destruct (fetch_json _ _ _ w) as [o w1]. simpl in *. subst w1. simpl.
    split; [done|]. split; [apply prefix_append|]. split; [done|].
    split; [|done]. split; [by intros [? ?]|done].
  - eexists. rewrite Hprinted. unfold sendTransaction. rewrite Hfj. simpl.
    split; [done|]. split; [apply prefix_append|]. split; [done|].
    split; [|done]. split; [done|by eexists].
  - eexists. rewrite Hprinted. unfold getAnalytics. rewrite Hfj. simpl.
    split; [done|]. split; [apply prefix_append|]. split; [done|].
    split; [|done]. split; [by intros [? ?]|done].
  - eexists. rewrite Hprinted. unfold getTransactionHistory.
    pose proof (Hfj (GET (CIRCULAR_RPC_URL env +:+ "/wallet/" +:+ address
                          +:+ "/transactions?limit=" +:+ limit))
                  "Failed to get transaction history: ") as Hw.
    destruct (fetch_json _ _ _ w) as [o w1]. simpl in *. subst w1. simpl.
    split; [done|]. split; [apply prefix_append|]. split; [done|].
    split; [|done]. split; [by intros [? ?]|done].
Qed.

End Tools.

Section Lenient.
Import CircularClient CircularMCP Protocol.

Variable fetch : list Request → Request → Settled Response.
Variable engine_message : EngineError → string.
Variable JSON_stringify : JsValue → string.

(** X11: on a successful answer [checkWallet] hands back the body's [exists]
    member as it is, boolean or not, after one GET to
    [<rpcUrl>/wallet/<address>/exists] and without logging; a member that is
    [null] counts as [false], also without logging. *)
Theorem checkWallet_returns_the_member rpcUrl address w resp data v :
  let request := GET (rpcUrl +:+ "/wallet/" +:+ address +:+ "/exists") in
  fetch (requests w) request = Fulfilled resp →
  ok resp = true →
  json resp = Fulfilled data →
  member data "exists" = Some (Some v) →
  checkWallet fetch rpcUrl address w
  = (match v with JNull => JBool false | _ => v end,
     mkWorld (requests w ++ [request])%list (console_errors w)).
Proof.
  intros request Hf Hok Hjson Hmem. unfold checkWallet, do_fetch.
  fold request. rewrite Hf. simpl. rewrite Hok, Hjson. simpl.
  unfold exists_or_false. rewrite Hmem. by destruct v.
Qed.

(** X12: the paid read tools tolerate a successful body that lacks the member
    they read.  Without a [balance] member, [get_balance] answers
    [Balance for <address>: undefined], not an error; without a
    [transactions] member, or with [null] there, [get_transaction_history]
    answers with the text of the empty list. *)
Theorem missing_members_are_tolerated env address limit w resp data :
  (∀ r, fetch (requests w) r = Fulfilled resp) →
  ok resp = true →
  json resp = Fulfilled data →
  (member data "balance" = Some None →
   ∃ d handler,
     lookup "get_balance" (init fetch engine_message JSON_stringify env) = Some d
     ∧ tool_handler d (ArgsAddress address) = Some handler
     ∧ fst (handler w)
       = mkResult [mkContent "text" (Some ("Balance for " +:+ address +:+ ": undefined"))]
           false)
  ∧ (member data "transactions" = Some None
     ∨ member data "transactions" = Some (Some JNull) →
     ∃ d handler,
       lookup "get_transaction_history" (init fetch engine_message JSON_stringify env)
       = Some d
       ∧ tool_handler d (ArgsHistory address limit) = Some handler
       ∧ fst (handler w)
         = mkResult [mkContent "text" (Some (JSON_stringify (JArr [])))] false).
Proof.
  intros Hf Hok Hjson. split.
  - intros Hmem. eexists _, _. split; [reflexivity|]. split; [reflexivity|].
    unfold printed, getBalance, fetch_json, do_fetch.
    rewrite Hf. simpl. rewrite Hok, Hjson. simpl. by rewrite Hmem.
  - intros Hmem. eexists _, _. split; [reflexivity|]. split; [reflexivity|].
    unfold printed, getTransactionHistory, fetch_json, do_fetch.
    rewrite Hf. simpl. rewrite Hok, Hjson. simpl. by destruct Hmem as [-> | ->].
Qed.

End Lenient.

(** * Properties of the worker *)

Section Router.
Import CircularMCP Worker.

(** X13: the paths that the welcome message and the [/docs] response list are
    the same five, and they are exactly the paths the worker treats by
    themselves: [/mcp] goes to the MCP server, [/agent] to the agent named
    [default], and any path that is not listed, a listed one with a trailing
    slash included, gets the welcome message.  Whatever the worker answers by
    itself has status 200 and the JSON content type; only the welcome message
    allows any origin. *)
Theorem listed_paths_are_the_routes pathname env now :
  map snd welcome_endpoints = map fst docs_endpoints
  ∧ (existsb (String.eqb pathname) (map fst docs_endpoints) = false ↔
     ∃ r, fetch pathname env now = Respond r
          ∧ http_body r = WelcomeBody "Circular Protocol x402 Gateway" "1.0.0"
                            welcome_endpoints "https://x402.gitbook.io/x402")
  ∧ (fetch pathname env now = ServeMcp ↔ pathname = "/mcp")
  ∧ (fetch pathname env now = AgentFetch "default" ↔ pathname = "/agent")
  ∧ (∀ r, fetch pathname env now = Respond r →
       http_status r = 200
       ∧ ("Content-Type", "application/json") ∈ http_headers r
       ∧ (("Access-Control-Allow-Origin", "*") ∈ http_headers r ↔
          existsb (String.eqb pathname) (map fst docs_endpoints) = false)).
Proof.
  split; [reflexivity|]. unfold fetch. simpl.
  destruct (String.eqb_spec pathname "/mcp") as [->|Hmcp]; simpl.
  { split; [split; [done|by intros (r & [=] & _)]|].
    split; [done|]. split; [done|]. by intros r [=]. }
  destruct (String.eqb_spec pathname "/agent") as [->|Hagent]; simpl.
  { split; [split; [done|by intros (r & [=] & _)]|].
    split; [done|]. split; [done|]. by intros r [=]. }
  destruct (String.eqb_spec pathname "/health") as [->|Hhealth]; simpl.
  { split; [split; [done|by intros (r & [= <-] & [=])]|].
    split; [done|]. split; [done|]. intros r [= <-]. simpl.
    split; [done|]. split; [set_solver|]. split; [|done].
    intros [[=]|[]%not_elem_of_nil]%elem_of_cons. }
  destruct (String.eqb_spec pathname "/pricing") as [->|Hpricing]; simpl.
  { split; [split; [done|by intros (r & [= <-] & [=])]|].
    split; [done|]. split; [done|]. intros r [= <-]. simpl.
    split; [done|]. split; [set_solver|]. split; [|done].
    intros [[=]|[]%not_elem_of_nil]%elem_of_cons. }
  destruct (String.eqb_spec pathname "/docs") as [->|Hdocs]; simpl.
  { split; [split; [done|by intros (r & [= <-] & [=])]|].
    split; [done|]. split; [done|]. intros r [= <-]. simpl.
    split; [done|]. split; [set_solver|]. split; [|done].
    intros [[=]|[]%not_elem_of_nil]%elem_of_cons. }
  split; [split; [by eexists|done]|].
  split; [done|]. split; [done|]. intros r [= <-]. simpl.
  split; [done|]. split; [set_solver|]. split; [done|set_solver].
Qed.

(** X14: what the worker publishes about payment is what the MCP server is
    configured with: for every environment, the network and the facilitator
    of [/pricing] and the network, the facilitator and the recipient of
    [/docs] are those of the x402 configuration that [init] gives
    [withX402]; and [/docs] lists as free the tools registered without a
    price and as paid the tools registered with one. *)
Theorem published_payment_is_configured fetch engine_message JSON_stringify env :
  let server := init fetch engine_message JSON_stringify env in
  let free d := match tool_price d with None => true | Some _ => false end in
  ∃ config,
    x402 server = Some config
    ∧ pricing_network (pricing env) = network config
    ∧ pricing_facilitator (pricing env) = facilitator config
    ∧ payment_network (docs_payment env) = network config
    ∧ payment_facilitator (docs_payment env) = facilitator config
    ∧ payment_recipient (docs_payment env) = recipient config
    ∧ docs_free = map tool_name (List.filter free (tools server))
    ∧ list_to_set docs_paid
      =@{gset string}
        list_to_set (map tool_name (List.filter (λ d, negb (free d)) (tools server))).
Proof.
  intros server free. eexists. split; [reflexivity|].
  repeat (split; [reflexivity|]). simpl. compute_done.
Qed.

End Router.

Section Trace.
Import CircularPayAgent Protocol.

Lemma announced_app es es' : announced (es ++ es') = announced es + announced es'.
Proof. unfold announced. by rewrite List.filter_app, length_app. Qed.

Lemma step_announced JSON_parse e a :
  announced (effects a) = length (promises a) →
  announced (effects (step JSON_parse e a)) = length (promises (step JSON_parse e a)).
Proof.
  intros Ha.
  assert (Hprepend : step JSON_parse e a
                     = prepend (effects a) (step JSON_parse e (quiet a))).
  { by rewrite <- step_prepend, prepend_quiet. }
  rewrite Hprepend. simpl. rewrite announced_app, Ha. clear Hprepend Ha.
  unfold announced.
  destruct e as [env account connected wrapped|conn m|reqs uuid|ms|call o|call o]; simpl.
  - unfold onStart. destruct (CLIENT_WALLET_PK env) as [pk|]; simpl; [|lia].
    destruct (String.eqb pk EmptyString); simpl; [lia|].
    destruct account; simpl; [|lia]. destruct connected, wrapped; simpl; lia.
  - unfold onMessage. destruct m as [text|]; simpl; [|lia].
    destruct (JSON_parse text) as [parsed|]; simpl; [|lia].
    unfold dispatch, answer_message, answer.
    destruct (member parsed "type") as [ty|]; simpl; [|lia].
    destruct (classify ty); simpl;
      try (destruct (x402Client a); simpl; lia); try lia;
      (destruct (member parsed "confirmationId") as [v|]; simpl; [|lia];
       destruct (to_property_key v) as [key|]; simpl; [|lia];
       unfold get_confirmation; simpl;
       destruct (confirmations a !! key) as [q|];
       [|destruct (Object_prototype key) as [[[]|]|]]; simpl;
       rewrite ?resolve_effects, ?resolve_length; simpl; lia).
  - rewrite length_app. simpl. lia.
  - destruct (elapse_adds_nothing ms (quiet a)) as [-> ->]. simpl. lia.
  - unfold take_awaited. simpl.
    destruct (awaiting a !! call) as [[[conn tool|conn]|]|]; simpl; try lia.
    destruct o; simpl; lia.
  - unfold take_awaited. simpl.
    destruct (awaiting a !! call) as [[[conn tool|conn]|]|]; simpl; try lia.
    destruct o; simpl; lia.
Qed.

(** X15: every payment request is announced exactly once, and nothing else
    is: in every state the agent reaches, the trace holds as many
    [payment_required] broadcasts as promises were made, whatever messages,
    timeouts and settled calls came in between. *)
Theorem requests_are_announced_once JSON_parse events :
  announced (effects (run JSON_parse events initial))
  = length (promises (run JSON_parse events initial)).
Proof.
  assert (H : ∀ a, announced (effects a) = length (promises a) →
                announced (effects (run JSON_parse events a))
                = length (promises (run JSON_parse events a))).
  { induction events as [|e events IH]; intros a Ha; [done|].
    apply IH. by apply step_announced. }
  by apply H.
Qed.

(** X16: handling a message from a connection never broadcasts and never
    sends on another connection: whatever [onMessage] adds to the trace is a
    log line, a call of the client, or a message sent to the sender. *)
Theorem onMessage_answers_only_the_sender JSON_parse conn message a e :
  e ∈ since a (onMessage JSON_parse conn message a) → private_to conn e.
Proof.
  assert (Hsince : ∀ s es, effects s = (effects a ++ es)%list → since a s = es).
  { intros s es Hs. unfold since. by rewrite Hs, drop_app_length. }
  assert (Hcatch : ∀ s, effects s = effects a →
            e ∈ since a (catch_parse conn s) → private_to conn e).
  { intros s Hs. rewrite (Hsince _ [ConsoleError "Error handling message:";
                                    ConnSend conn (MsgError "Failed to parse message")]).
    - by intros [->|[->|[]%not_elem_of_nil]%elem_of_cons]%elem_of_cons.
    - unfold catch_parse, send, emit. simpl. by rewrite Hs, <- app_assoc. }
  unfold onMessage. destruct message as [text|].
  2: { rewrite since_self. by intros ?%not_elem_of_nil. }
  destruct (JSON_parse text) as [parsed|]; [|by apply Hcatch].
  unfold dispatch.
  destruct (member parsed "type") as [ty|]; [|by apply Hcatch].
  assert (Hanswer : ∀ accepted,
            e ∈ since a (match answer_message accepted parsed a with
                         | Normal a' => a'
                         | Abrupt a' => catch_parse conn a'
                         end) → private_to conn e).
  { intros accepted. destruct (answer_message_quiet accepted parsed a) as [He _].
    destruct (answer_message accepted parsed a) as [s|s]; simpl in He.
    - rewrite (Hsince s []) by (by rewrite He, app_nil_r). by intros ?%not_elem_of_nil.
    - by apply Hcatch. }
  destruct (classify ty); try apply Hanswer.
  - destruct (x402Client a).
    + rewrite (Hsince _ [ClientCallTool (length (awaiting a))
                           (default None (member parsed "tool"))
                           match default None (member parsed "args") with
                           | Some v => if truthy v then v else JObj []
                           | None => JObj []
                           end]) by done.
      by intros [->|[]%not_elem_of_nil]%elem_of_cons.
    + unfold send. rewrite since_emit. by intros [->|[]%not_elem_of_nil]%elem_of_cons.
  - destruct (x402Client a).
    + rewrite (Hsince _ [ClientListTools (length (awaiting a))]) by done.
      by intros [->|[]%not_elem_of_nil]%elem_of_cons.
    + unfold send. rewrite since_emit. by intros [->|[]%not_elem_of_nil]%elem_of_cons.
  - rewrite since_emit. by intros [->|[]%not_elem_of_nil]%elem_of_cons.
Qed.

End Trace.

(** * The further properties at concrete inputs *)

Section ConcreteMore.
Import CircularPayAgent CircularClient CircularMCP Worker Protocol Scenario.

(** A [call_tool] message with [args: null] on the started agent. *)
Lemma call_tool_arguments_are_an_object_witness :
  since one_pending (onMessage parse_more 7 (WSString "call get_wallet") one_pending)
  = [ClientCallTool 0 (Some (JStr "get_wallet")) (JObj [])].
Proof.
  destruct (call_tool_arguments_are_an_object parse_more 7 "call get_wallet"
              (JObj [("type", JStr "call_tool"); ("tool", JStr "get_wallet");
                     ("args", JNull)])
              (Some (JStr "call_tool")) one_pending eq_refl eq_refl eq_refl eq_refl)
    as (args & Hsince & Htruthy & [Hargs|[-> _]]).
  - injection Hargs as <-. discriminate Htruthy.
  - exact Hsince.
Defined.

(** A request on the initial agent, confirmed after half a minute. *)
Lemma answer_in_time_settles_the_request_witness :
  let waited :=
    run parse [Elapse 30000] (snd (onPaymentRequired requirements uuid1 initial)) in
  let answered :=
    onMessage parse 7 (WSString (id_message "confirm" "3f2a9c1b")) waited in
  since initial (snd (onPaymentRequired requirements uuid1 initial))
  = [Broadcast (MsgPaymentRequired "3f2a9c1b" requirements 0)]
  ∧ promises waited !! 0 = Some None
  ∧ promises answered !! 0 = Some (Some true)
  ∧ confirmations answered !! "3f2a9c1b" = None
  ∧ since waited answered = [].
Proof.
  apply (answer_in_time_settles_the_request parse initial requirements uuid1
           [Elapse 30000] 7 (id_message "confirm" "3f2a9c1b")
           (JObj [("type", JStr "confirm"); ("confirmationId", JStr "3f2a9c1b")])
           (Some (JStr "confirm")) true); try reflexivity.
  - apply initial_consistent.
  - by intros t ?%not_elem_of_nil.
  - intros e He. apply list_elem_of_In in He. simpl in He.
    destruct He as [<-|[]]. reflexivity.
Defined.

(** A [confirm] message without an id while a confirmation is pending. *)
Lemma answer_without_id_is_ignored_witness :
  onMessage parse_more 7 (WSString (type_message "confirm")) one_pending = one_pending.
Proof.
  apply (answer_without_id_is_ignored parse_more 7 (type_message "confirm")
           (JObj [("type", JStr "confirm")]) (Some (JStr "confirm")) one_pending);
    try reflexivity.
  - apply run_consistent, initial_consistent.
  - by left.
Defined.

(** The second timer of the agent with two pending confirmations. *)
Lemma armed_timers_are_due_within_a_minute_witness :
  (clock two_pending < 61000 ≤ clock two_pending + 60000)%N.
Proof.
  apply (armed_timers_are_due_within_a_minute parse
           [PaymentRequired requirements uuid1; Elapse 1000;
            PaymentRequired requirements uuid2]
           (mkTimer 61000 "77e0d4a6" 1)).
  apply list_elem_of_In. vm_compute. auto.
Defined.

(** Two colliding requests, then a minute. *)
Lemma table_is_empty_after_a_minute_witness :
  confirmations (elapse 60000 (run parse colliding initial)) = ∅
  ∧ timers (elapse 60000 (run parse colliding initial)) = [].
Proof. apply (table_is_empty_after_a_minute parse colliding 60000). lia. Defined.

(** [get_wallet] against a backend that answers 404. *)
Lemma priced_tools_report_backend_failures_witness :
  ∃ handler,
    get_wallet_handler not_found engine_message stringify (CIRCULAR_RPC_URL env)
      (ArgsAddress "0xabc") = Some handler
    ∧ fst (handler (mkWorld [] []))
      = mkResult [mkContent "text" (Some "Error: Failed to get wallet: Not Found")] true.
Proof.
  set (d := mkTool "get_wallet" "Get detailed wallet information from Circular Protocol"
              (Some (1 # 1000))
              (get_wallet_handler not_found engine_message stringify (CIRCULAR_RPC_URL env))).
  assert (Hd : d ∈ tools (init not_found engine_message stringify env))
    by (apply list_elem_of_In; simpl; auto).
  assert (Hprice : tool_price d ≠ None) by discriminate.
  epose proof (priced_tools_report_backend_failures not_found engine_message stringify env
                 d (ArgsAddress "0xabc") _ (mkWorld [] []) Hd Hprice eq_refl)
    as [Hhttp _].
  eexists. split; [reflexivity|].
  exact (Hhttp (mkResponse false "404" "Not Found"
                  (Fulfilled (JObj [("error", JStr "unknown wallet")])))
           (λ _, eq_refl) eq_refl).
Defined.

(** [get_analytics] against the same backend. *)
Lemma tools_answer_with_one_text_witness :
  ∃ handler text,
    get_analytics_handler not_found engine_message stringify (CIRCULAR_RPC_URL env)
      (ArgsAnalytics volume last7d) = Some handler
    ∧ content (fst (handler (mkWorld [] []))) = [mkContent "text" (Some text)]
    ∧ first_text (fst (handler (mkWorld [] []))) = text.
Proof.
  set (d := mkTool "get_analytics" "Get analytics data from Circular Protocol"
              (Some (5 # 1000))
              (get_analytics_handler not_found engine_message stringify
                 (CIRCULAR_RPC_URL env))).
  assert (Hd : d ∈ tools (init not_found engine_message stringify env))
    by (apply list_elem_of_In; simpl; auto 10).
  epose proof (tools_answer_with_one_text not_found engine_message stringify env
                 d (ArgsAnalytics volume last7d) _ (mkWorld [] []) Hd eq_refl)
    as (text & Hcontent & Hfirst & _).
  eexists _, text. split; [reflexivity|]. by split.
Defined.

(** [send_transaction] without a memo. *)
Lemma tools_issue_one_request_witness :
  ∃ handler r,
    send_transaction_handler not_found engine_message stringify (CIRCULAR_RPC_URL env)
      (ArgsTransaction "0xa" "0xb" "5" None) = Some handler
    ∧ requests (snd (handler (mkWorld [] []))) = [r]
    ∧ request_method r = "POST"
    ∧ is_Some (request_body r).
Proof.
  set (d := mkTool "send_transaction" "Send a transaction on Circular Protocol"
              (Some (1 # 100))
              (send_transaction_handler not_found engine_message stringify
                 (CIRCULAR_RPC_URL env))).
  assert (Hd : d ∈ tools (init not_found engine_message stringify env))
    by (apply list_elem_of_In; simpl; auto 10).
  epose proof (tools_issue_one_request not_found engine_message stringify env
                 d (ArgsTransaction "0xa" "0xb" "5" None) _ (mkWorld [] []) Hd eq_refl)
    as (r & Hrequests & _ & Hmethod & Hbody & _).
  eexists _, r. split; [reflexivity|]. split; [exact Hrequests|].
  split; [exact Hmethod|]. by apply Hbody.
Defined.

(** A backend whose [exists] member is a text. *)
Lemma checkWallet_returns_the_member_witness :
  checkWallet (answers (JObj [("exists", JStr "yes")])) "https://rpc.example" "0xabc"
    (mkWorld [] [])
  = (JStr "yes", mkWorld [GET "https://rpc.example/wallet/0xabc/exists"] []).
Proof.
  apply (checkWallet_returns_the_member (answers (JObj [("exists", JStr "yes")]))
           "https://rpc.example" "0xabc" (mkWorld [] [])
           (mkResponse true "200" "OK" (Fulfilled (JObj [("exists", JStr "yes")])))
           (JObj [("exists", JStr "yes")]) (JStr "yes")); reflexivity.
Defined.

(** A backend that answers every request with an empty object. *)
Lemma missing_members_are_tolerated_witness :
  (∃ d handler,
     lookup "get_balance" (init (answers (JObj [])) engine_message stringify env) = Some d
     ∧ tool_handler d (ArgsAddress "0xabc") = Some handler
     ∧ fst (handler (mkWorld [] []))
       = mkResult [mkContent "text" (Some "Balance for 0xabc: undefined")] false)
  ∧ (∃ d handler,
       lookup "get_transaction_history"
         (init (answers (JObj [])) engine_message stringify env) = Some d
       ∧ tool_handler d (ArgsHistory "0xabc" "10") = Some handler
       ∧ fst (handler (mkWorld [] []))
         = mkResult [mkContent "text" (Some (stringify (JArr [])))] false).
Proof.
  destruct (missing_members_are_tolerated (answers (JObj [])) engine_message stringify env
              "0xabc" "10" (mkWorld [] [])
              (mkResponse true "200" "OK" (Fulfilled (JObj []))) (JObj []))
    as [Hbalance Hhistory]; try reflexivity.
  split; [by apply Hbalance|]. apply Hhistory. by left.
Defined.

(** The reply to a [list_tools] message on an agent without a client. *)
Lemma onMessage_answers_only_the_sender_witness :
  private_to 7 (ConnSend 7 (MsgError "Agent not initialized")).
Proof.
  apply (onMessage_answers_only_the_sender parse 7 (WSString (type_message "list_tools"))
           initial).
  apply list_elem_of_In. vm_compute. auto.
Defined.

End ConcreteMore.
